(** * Release detection script: [.github/workflows/scripts/detect_release.py]

    A shallow embedding of the script that decides, per binary crate, whether
    a release is needed, together with the properties its specification
    states about it.

    Layout: the pieces of the Python runtime the script relies on (strings as
    code point sequences, the Unicode digit classes behind [str.isdigit] and
    [int], exceptions and [try]/[except]), the world the script talks to
    (environment, files, TOML parser, [git] subprocesses), the script's
    functions under their source names, the specification's vocabulary, and
    then the theorems. *)

From Stdlib Require Import List ZArith NArith Lia Bool String Ascii.
From Stdlib Require Import DecimalString.
Import ListNotations.

Local Open Scope N_scope.

(* ------------------------------------------------------------------ *)
(** ** Python strings *)

(** A Python [str] is a sequence of Unicode code points. *)
Definition char := N.
Definition str := list char.

(** Literals of the script that are plain ASCII. *)
Definition lit (s : string) : str :=
  map N_of_ascii (list_ascii_of_string s).

Fixpoint str_eqb (a b : str) : bool :=
  match a, b with
  | [], [] => true
  | x :: a', y :: b' => (x =? y) && str_eqb a' b'
  | _, _ => false
  end.

(** [s * n] *)
Fixpoint str_repeat (s : str) (n : nat) : str :=
  match n with
  | O => []
  | S k => s ++ str_repeat s k
  end.

(** Truth value of a string: [if s:] holds for the non-empty ones. *)
Definition truthy (s : str) : bool :=
  match s with [] => false | _ :: _ => true end.

(** Truth value of a [str | None]. *)
Definition truthy_opt (o : option str) : bool :=
  match o with None => false | Some s => truthy s end.

(** [s.split(sep)] for a one-character separator: never an empty list, and
    adjacent separators give empty components. *)
Fixpoint split_on (sep : char) (s : str) : list str :=
  match s with
  | [] => [[]]
  | c :: r =>
      if c =? sep then [] :: split_on sep r
      else match split_on sep r with
           | [] => [[c]]
           | h :: t => (c :: h) :: t
           end
  end.

Definition in_range (c : char) (r : N * N) : bool :=
  (fst r <=? c) && (c <=? snd r).

(** Code points with the White_Space behaviour of [str.isspace]. *)
Definition whitespace_ranges : list (N * N) :=
  [ (0x9, 0xd); (0x1c, 0x20); (0x85, 0x85); (0xa0, 0xa0); (0x1680, 0x1680);
    (0x2000, 0x200a); (0x2028, 0x2029); (0x202f, 0x202f); (0x205f, 0x205f);
    (0x3000, 0x3000) ].

Definition isspace_char (c : char) : bool :=
  existsb (in_range c) whitespace_ranges.

Fixpoint lstrip (s : str) : str :=
  match s with
  | [] => []
  | c :: r => if isspace_char c then lstrip r else s
  end.

(** [s.strip()] *)
Definition strip (s : str) : str := rev (lstrip (rev (lstrip s))).

(* ------------------------------------------------------------------ *)
(** ** Unicode digits: [str.isdigit] and [int] *)

(** Runs of decimal digits (general category Nd) of the Unicode Character
    Database, version 14.0: first code point and length of each run.  Inside
    a run the digit of a code point is its offset modulo ten. *)
Definition decimal_runs : list (N * N) :=
  [ (0x30, 10); (0x660, 10); (0x6f0, 10); (0x7c0, 10); (0x966, 10);
    (0x9e6, 10); (0xa66, 10); (0xae6, 10); (0xb66, 10); (0xbe6, 10);
    (0xc66, 10); (0xce6, 10); (0xd66, 10); (0xde6, 10); (0xe50, 10);
    (0xed0, 10); (0xf20, 10); (0x1040, 10); (0x1090, 10); (0x17e0, 10);
    (0x1810, 10); (0x1946, 10); (0x19d0, 10); (0x1a80, 10); (0x1a90, 10);
    (0x1b50, 10); (0x1bb0, 10); (0x1c40, 10); (0x1c50, 10); (0xa620, 10);
    (0xa8d0, 10); (0xa900, 10); (0xa9d0, 10); (0xa9f0, 10); (0xaa50, 10);
    (0xabf0, 10); (0xff10, 10); (0x104a0, 10); (0x10d30, 10); (0x11066, 10);
    (0x110f0, 10); (0x11136, 10); (0x111d0, 10); (0x112f0, 10); (0x11450, 10);
    (0x114d0, 10); (0x11650, 10); (0x116c0, 10); (0x11730, 10); (0x118e0, 10);
    (0x11950, 10); (0x11c50, 10); (0x11d50, 10); (0x11da0, 10); (0x16a60, 10);
    (0x16ac0, 10); (0x16b50, 10); (0x1d7ce, 50); (0x1e140, 10); (0x1e2f0, 10);
    (0x1e950, 10); (0x1fbf0, 10) ].

(** Code points that are digits without being decimal digits (Numeric_Type
    Digit): superscripts, subscripts, circled digits and the like.
    [str.isdigit] accepts them, [int] does not. *)
Definition other_digit_ranges : list (N * N) :=
  [ (0xb2, 0xb3); (0xb9, 0xb9); (0x1369, 0x1371); (0x19da, 0x19da);
    (0x2070, 0x2070); (0x2074, 0x2079); (0x2080, 0x2089); (0x2460, 0x2468);
    (0x2474, 0x247c); (0x2488, 0x2490); (0x24ea, 0x24ea); (0x24f5, 0x24fd);
    (0x24ff, 0x24ff); (0x2776, 0x277e); (0x2780, 0x2788); (0x278a, 0x2792);
    (0x10a40, 0x10a43); (0x10e60, 0x10e68); (0x11052, 0x1105a);
    (0x1f100, 0x1f10a) ].

Fixpoint decimal_in (runs : list (N * N)) (c : char) : option N :=
  match runs with
  | [] => None
  | (start, len) :: rest =>
      if (start <=? c) && (c <? start + len)
      then Some ((c - start) mod 10)
      else decimal_in rest c
  end.

(** The decimal digit a code point stands for, if it is one. *)
Definition decimal_value (c : char) : option N := decimal_in decimal_runs c.

Definition isdecimal_char (c : char) : bool :=
  match decimal_value c with Some _ => true | None => false end.

Definition isdigit_char (c : char) : bool :=
  isdecimal_char c || existsb (in_range c) other_digit_ranges.

(** [s.isdigit()]: at least one character, and all of them digits. *)
Definition isdigit (s : str) : bool :=
  truthy s && forallb isdigit_char s.

(* ------------------------------------------------------------------ *)
(** ** Exceptions *)

Inductive exn : Type :=
| OSError
| FileNotFoundError
| PermissionError
| ValueError
| UnicodeDecodeError
| TOMLDecodeError
| KeyError
| TypeError
| AttributeError
| CalledProcessError.

Definition exn_eqb (a b : exn) : bool :=
  match a, b with
  | OSError, OSError
  | FileNotFoundError, FileNotFoundError
  | PermissionError, PermissionError
  | ValueError, ValueError
  | UnicodeDecodeError, UnicodeDecodeError
  | TOMLDecodeError, TOMLDecodeError
  | KeyError, KeyError
  | TypeError, TypeError
  | AttributeError, AttributeError
  | CalledProcessError, CalledProcessError => true
  | _, _ => false
  end.

(** The base class, among the classes above, of each exception class. *)
Definition exn_base (e : exn) : option exn :=
  match e with
  | FileNotFoundError | PermissionError => Some OSError
  | UnicodeDecodeError | TOMLDecodeError => Some ValueError
  | _ => None
  end.

(** [isinstance(e, cls)] *)
Definition isinstance (e cls : exn) : bool :=
  exn_eqb e cls ||
  match exn_base e with Some b => exn_eqb b cls | None => false end.

(** An [except (c1, c2, ...)] clause handles [e]. *)
Definition handles (classes : list exn) (e : exn) : bool :=
  existsb (isinstance e) classes.

(** Outcome of evaluating an expression: a value or a raised exception. *)
Inductive result (A : Type) : Type :=
| Ok (a : A)
| Raise (e : exn).
Arguments Ok {A} a.
Arguments Raise {A} e.

Definition rbind {A B} (r : result A) (k : A -> result B) : result B :=
  match r with
  | Ok a => k a
  | Raise e => Raise e
  end.

(** [try: body except classes: handler] for code without side effects. *)
Definition rtry {A} (body : result A) (classes : list exn)
    (handler : result A) : result A :=
  match body with
  | Ok a => Ok a
  | Raise e => if handles classes e then handler else Raise e
  end.

Declare Scope result_scope.
Delimit Scope result_scope with result.
Notation "x <- r ;; k" := (rbind r (fun x => k))
  (at level 61, r at next level, right associativity) : result_scope.

(** The interpreter refuses to convert digit strings longer than
    [sys.int_max_str_digits]; the script leaves it at its default. *)
Definition int_max_str_digits : nat := 4300.

(** The number written by a string of decimal digits, [None] when some
    character is not a decimal digit. *)
Fixpoint digits_value (acc : Z) (s : str) : option Z :=
  match s with
  | [] => Some acc
  | c :: r =>
      match decimal_value c with
      | Some d => digits_value (10 * acc + Z.of_N d) r
      | None => None
      end
  end.

(** [int(p)] for an argument [p] made of digit characters, which is how the
    script calls it (the call is guarded by [p.isdigit()], so signs,
    underscores and surrounding blanks do not occur).  Decimal digits of any
    script convert; other digits, and strings past the length limit, raise
    [ValueError]. *)
Definition py_int (p : str) : result Z :=
  match p with
  | [] => Raise ValueError
  | _ :: _ =>
      match digits_value 0 p with
      | Some n =>
          if Nat.ltb int_max_str_digits (List.length p)
          then Raise ValueError
          else Ok n
      | None => Raise ValueError
      end
  end.

(** [a > b] on tuples of integers: the first position where the two differ
    decides; when there is none, the longer tuple is the greater. *)
Fixpoint tuple_gt (a b : list Z) : bool :=
  match a, b with
  | x :: a', y :: b' => if (x =? y)%Z then tuple_gt a' b' else (y <? x)%Z
  | _ :: _, [] => true
  | [], _ => false
  end.

(* ------------------------------------------------------------------ *)
(** ** The comparator *)

Local Open Scope result_scope.

(** [tuple(int(p) for p in parts if p.isdigit())] *)
Fixpoint ints_of_parts (parts : list str) : result (list Z) :=
  match parts with
  | [] => Ok []
  | p :: rest =>
      if isdigit p
      then n <- py_int p ;; ns <- ints_of_parts rest ;; Ok (n :: ns)
      else ints_of_parts rest
  end.

Definition dot : char := 0x2e.

Definition version_tuple (v : str) : result (list Z) :=
  ints_of_parts (split_on dot v).

Definition compare_versions (prev curr : option str) : result bool :=
  match prev, curr with
  | Some p, Some c =>
      rtry (prev_tuple <- version_tuple p ;;
            curr_tuple <- version_tuple c ;;
            Ok (tuple_gt curr_tuple prev_tuple))
           [ValueError; AttributeError]
           (Ok (negb (str_eqb p c)))
  | _, _ => Ok false
  end.

(* ------------------------------------------------------------------ *)
(** ** The world the script runs in *)

(** What [tomllib.loads] returns for a manifest, as far as [get_version]
    looks into it.  [get_version] is declared to return [str | None]; the
    embedding follows that declaration, so a ["version"] entry, when the
    package table has one, is a string. *)
Inductive manifest_doc : Type :=
| NoPackage                       (* no top-level key "package" *)
| PackageNotTable                 (* "package" is bound to a string, number, array, ... *)
| Package (version : option str). (* "package" is a table, with or without "version" *)

(** How a [subprocess.run(argv, capture_output=True, text=True)] call ends:
    the program ran and exited, or [run] itself raised (the program could not
    be started, its output could not be decoded). *)
Inductive proc_outcome : Type :=
| Exited (returncode : Z) (stdout : str)
| Failed (e : exn).

Record World : Type := {
  environ : str -> option str;                (* os.environ *)
  read_text : str -> result str;              (* Path(p).read_text() *)
  toml_loads : str -> result manifest_doc;    (* tomllib.loads *)
  run_process : list str -> proc_outcome;     (* subprocess.run *)
  open_error : str -> option exn              (* open(p, "a") refused *)
}.

(** What a run does to its surroundings, in order. *)
Inductive event : Type :=
| EvRead (path : str)
| EvLoads (content : str)
| EvRun (argv : list str)
| EvPrint (text : str)
| EvWrite (path text : str).

Record state : Type := {
  trace : list event;            (* oldest first *)
  files : str -> option str      (* contents of the files written to *)
}.

(** The state after further events. *)
Definition after (st : state) (evs : list event) : state :=
  {| trace := trace st ++ evs; files := files st |}.

(** Effectful code: a state transformer that returns or raises.  The state
    reached when an exception is raised is kept, as in Python. *)
Definition M (A : Type) : Type := state -> result A * state.

Definition mret {A} (a : A) : M A := fun st => (Ok a, st).

Definition mraise {A} (e : exn) : M A := fun st => (Raise e, st).

Definition mbind {A B} (m : M A) (k : A -> M B) : M B :=
  fun st =>
    match m st with
    | (Ok a, st') => k a st'
    | (Raise e, st') => (Raise e, st')
    end.

Definition lift {A} (r : result A) : M A := fun st => (r, st).

(** [try: body except classes: handler] *)
Definition mtry {A} (body : M A) (classes : list exn) (handler : M A) : M A :=
  fun st =>
    match body st with
    | (Ok a, st') => (Ok a, st')
    | (Raise e, st') =>
        if handles classes e then handler st' else (Raise e, st')
    end.

Definition log (ev : event) : M unit :=
  fun st => (Ok tt, after st [ev]).

Declare Scope io_scope.
Delimit Scope io_scope with io.
Notation "x <- m ;; k" := (mbind m (fun x => k))
  (at level 61, m at next level, right associativity) : io_scope.
Notation "m ;;; k" := (mbind m (fun _ => k))
  (at level 61, right associativity) : io_scope.

Local Open Scope io_scope.

(** [os.environ.get(key, default)] *)
Definition environ_get (w : World) (key default : str) : str :=
  match environ w key with Some v => v | None => default end.

(** [Path(path).read_text()] *)
Definition path_read_text (w : World) (path : str) : M str :=
  log (EvRead path) ;;; lift (read_text w path).

(** [tomllib.loads(content)] *)
Definition tomllib_loads (w : World) (content : str) : M manifest_doc :=
  log (EvLoads content) ;;; lift (toml_loads w content).

(** [subprocess.run(argv, capture_output=True, text=True, check=True)],
    giving [result.stdout]: a non-zero exit status raises
    [CalledProcessError]. *)
Definition subprocess_run_check (w : World) (argv : list str) : M str :=
  log (EvRun argv) ;;;
  match run_process w argv with
  | Exited code out =>
      if (code =? 0)%Z then mret out else mraise CalledProcessError
  | Failed e => mraise e
  end.

Definition print (text : str) : M unit := log (EvPrint text).

(** [open(path, "a")]: the file is created when it does not exist, and what
    it holds is kept. *)
Definition open_append (w : World) (path : str) : M unit :=
  fun st =>
    match open_error w path with
    | Some e => (Raise e, st)
    | None =>
        (Ok tt,
         {| trace := trace st;
            files := fun p =>
              if str_eqb p path
              then Some (match files st path with Some old => old | None => [] end)
              else files st p |})
    end.

(** [f.write(text)] on a file opened for appending. *)
Definition write (path text : str) : M unit :=
  fun st =>
    (Ok tt,
     {| trace := trace st ++ [EvWrite path text];
        files := fun p =>
          if str_eqb p path
          then Some (match files st path with Some old => old | None => [] end ++ text)
          else files st p |}).

(* ------------------------------------------------------------------ *)
(** ** The script *)

Definition BINARY_CRATES : list (str * str) :=
  [ (lit "crates/chatty_client_gui/Cargo.toml", lit "chatty") ].

(** [data["package"]["version"]] *)
Definition package_version (data : manifest_doc) : result str :=
  match data with
  | NoPackage => Raise KeyError
  | PackageNotTable => Raise TypeError
  | Package None => Raise KeyError
  | Package (Some v) => Ok v
  end.

Definition get_version (w : World) (cargo_toml_path : str)
    (content : option str) : M (option str) :=
  mtry (content' <- match content with
                    | None => path_read_text w cargo_toml_path
                    | Some c => mret c
                    end ;;
        data <- tomllib_loads w content' ;;
        v <- lift (package_version data) ;;
        mret (Some v))
       [FileNotFoundError; KeyError]
       (mret None).

(** ["0" * 40] *)
Definition null_sha : str := str_repeat (lit "0") 40.

Definition git_show_argv (before_sha path : str) : list str :=
  [lit "git"; lit "show"; before_sha ++ lit ":" ++ path].

Definition get_previous_content (w : World) (before_sha path : str)
    : M (option str) :=
  if str_eqb before_sha null_sha then mret None
  else
    mtry (out <- subprocess_run_check w (git_show_argv before_sha path) ;;
          mret (Some out))
         [CalledProcessError]
         (mret None).

Definition git_rev_parse_argv : list str :=
  [lit "git"; lit "rev-parse"; lit "HEAD^"].

(** Lines 55 and 58-70 of [main]: the base commit. *)
Definition resolve_before_sha (w : World) : M str :=
  let before_sha := environ_get w (lit "BEFORE_SHA") [] in
  if negb (truthy before_sha) then
    mtry (out <- subprocess_run_check w git_rev_parse_argv ;;
          let before_sha := strip out in
          if negb (truthy before_sha) then mret null_sha else mret before_sha)
         [CalledProcessError]
         (mret null_sha)
  else mret before_sha.

(** The four variables [main] accumulates into. *)
Record locals : Type := {
  server_release_needed : bool;
  client_release_needed : bool;
  server_version : option str;
  client_version : option str
}.

Definition initial_locals : locals :=
  {| server_release_needed := false; client_release_needed := false;
     server_version := None; client_version := None |}.

(** [f"{v}"] for a [str | None] and for a [bool]. *)
Definition show_opt (o : option str) : str :=
  match o with None => lit "None" | Some s => s end.

Definition show_bool (b : bool) : str :=
  if b then lit "True" else lit "False".

Definition check_mark : str := [0x2713].
Definition cross_mark : str := [0x2717].
Definition newline : str := [0xa].

(** Lines 84-105: what one artifact contributes, given its two versions. *)
Definition record_release (release_name : str)
    (previous_version current_version : option str) (l : locals) : M locals :=
  match current_version with
  | Some cv =>
      if truthy cv then
        let is_first_release :=
          match previous_version with None => true | Some _ => false end in
        version_bumped <-
          (if truthy_opt previous_version
           then lift (compare_versions previous_version current_version)
           else mret false) ;;
        if str_eqb release_name (lit "chatty") then
          let l1 := {| server_release_needed := server_release_needed l;
                       client_release_needed := client_release_needed l;
                       server_version := server_version l;
                       client_version := current_version |} in
          if is_first_release || version_bumped then
            let l2 := {| server_release_needed := server_release_needed l1;
                         client_release_needed := true;
                         server_version := server_version l1;
                         client_version := client_version l1 |} in
            (if is_first_release
             then print (lit "  " ++ check_mark ++ lit " Client release needed: first release")
             else print (lit "  " ++ check_mark ++ lit " Client release needed: version bumped")) ;;;
            mret l2
          else mret l1
        else if str_eqb release_name (lit "chatty-server") then
          let l1 := {| server_release_needed := server_release_needed l;
                       client_release_needed := client_release_needed l;
                       server_version := current_version;
                       client_version := client_version l |} in
          if is_first_release || version_bumped then
            let l2 := {| server_release_needed := true;
                         client_release_needed := client_release_needed l1;
                         server_version := server_version l1;
                         client_version := client_version l1 |} in
            (if is_first_release
             then print (lit "  " ++ check_mark ++ lit " Server release needed: first release")
             else print (lit "  " ++ check_mark ++ lit " Server release needed: version bumped")) ;;;
            mret l2
          else mret l1
        else mret l
      else
        print (lit "  " ++ cross_mark ++ lit " Could not determine version for " ++ release_name) ;;;
        mret l
  | None =>
      print (lit "  " ++ cross_mark ++ lit " Could not determine version for " ++ release_name) ;;;
      mret l
  end.

(** Lines 78-80: the two versions of one artifact. *)
Definition read_versions (w : World) (before_sha crate_path : str)
    : M (option str * option str) :=
  current_version <- get_version w crate_path None ;;
  prev_content <- get_previous_content w before_sha crate_path ;;
  previous_version <-
    (if truthy_opt prev_content
     then get_version w crate_path prev_content
     else mret None) ;;
  mret (previous_version, current_version).

(** One iteration of the loop of [main], lines 78-105. *)
Definition process_crate (w : World) (before_sha : str)
    (crate : str * str) (l : locals) : M locals :=
  let (crate_path, release_name) := crate in
  versions <- read_versions w before_sha crate_path ;;
  let (previous_version, current_version) := versions in
  print (release_name ++ lit ": " ++ show_opt previous_version
           ++ lit " -> " ++ show_opt current_version) ;;;
  record_release release_name previous_version current_version l.

Fixpoint for_each_crate (w : World) (before_sha : str)
    (crates : list (str * str)) (l : locals) : M locals :=
  match crates with
  | [] => mret l
  | crate :: rest =>
      l' <- process_crate w before_sha crate l ;;
      for_each_crate w before_sha rest l'
  end.

Definition release_flag_line (role : str) (needed : bool) : str :=
  role ++ lit "_release_needed=" ++ (if needed then lit "true" else lit "false")
       ++ newline.

Definition version_line (role version : str) : str :=
  role ++ lit "_version=" ++ version ++ newline.

(** Lines 110-117: the result file. *)
Definition emit (w : World) (output_file : str) (l : locals) : M unit :=
  if truthy output_file then
    open_append w output_file ;;;
    write output_file (release_flag_line (lit "server") (server_release_needed l)) ;;;
    write output_file (release_flag_line (lit "client") (client_release_needed l)) ;;;
    (if truthy_opt (server_version l)
     then write output_file (version_line (lit "server") (show_opt (server_version l)))
     else mret tt) ;;;
    (if truthy_opt (client_version l)
     then write output_file (version_line (lit "client") (show_opt (client_version l)))
     else mret tt)
  else mret tt.

(** [main], returning the variables it ended with. *)
Definition main (w : World) : M locals :=
  let output_file := environ_get w (lit "GITHUB_OUTPUT") [] in
  before_sha <- resolve_before_sha w ;;
  l <- for_each_crate w before_sha BINARY_CRATES initial_locals ;;
  print (newline ++ lit "Server release needed: " ++ show_bool (server_release_needed l)) ;;;
  print (lit "Client release needed: " ++ show_bool (client_release_needed l)) ;;;
  emit w output_file l ;;;
  mret l.

(* ------------------------------------------------------------------ *)
(** ** The specification's vocabulary *)

(** A component that split leaves and the comparator drops. *)
Definition dropped (p : str) : bool := negb (isdigit p).

(** Every dot-separated component of the version is dropped. *)
Definition all_dropped (v : str) : bool := forallb dropped (split_on dot v).

(** A purely numeric component: one decimal digit or more, nothing else. *)
Definition decimal_string (p : str) : bool :=
  truthy p && forallb isdecimal_char p.

(** Every dot-separated component of the version is purely numeric. *)
Definition all_numeric (v : str) : bool :=
  forallb decimal_string (split_on dot v).

(** No component has more digits than the interpreter converts. *)
Definition convertible (v : str) : bool :=
  forallb (fun p => Nat.leb (List.length p) int_max_str_digits)
          (split_on dot v).

Definition digit_of (c : char) : Z :=
  match decimal_value c with Some d => Z.of_N d | None => 0%Z end.

(** The integer a purely numeric component writes, most significant digit
    first. *)
Definition number_of (p : str) : Z :=
  fold_left (fun acc c => (10 * acc + digit_of c)%Z) p 0%Z.

(** The integer sequence of a version whose components are all numeric. *)
Definition integer_sequence (v : str) : list Z :=
  map number_of (split_on dot v).

(** Lexicographic order, position by position, a strict prefix being less
    than the longer sequence. *)
Inductive lex_lt : list Z -> list Z -> Prop :=
| lex_prefix : forall y ys, lex_lt [] (y :: ys)
| lex_head : forall x xs y ys, (x < y)%Z -> lex_lt (x :: xs) (y :: ys)
| lex_tail : forall x xs ys, lex_lt xs ys -> lex_lt (x :: xs) (x :: ys).

(** How an artifact's version moved between the base commit and now. *)
Inductive Transition : Type :=
| FirstRelease
| Bump
| NoChange
| Indeterminate.

(** The classification of the data model: first release when the previous
    version is absent and the current one present, bump or no change as the
    comparator orders two present versions, indeterminate when the current
    version is absent or the comparison fails.  Absent is [None]. *)
Definition classify (previous current : option str) : Transition :=
  match current with
  | None => Indeterminate
  | Some _ =>
      match previous with
      | None => FirstRelease
      | Some _ =>
          match compare_versions previous current with
          | Ok true => Bump
          | Ok false => NoChange
          | Raise _ => Indeterminate
          end
      end
  end.

(** A version that is there and not the empty string. *)
Definition nonempty (o : option str) : option str :=
  match o with
  | Some s => if truthy s then Some s else None
  | None => None
  end.

(** The same classification when an empty version string counts as absent
    too. *)
Definition classify_nonempty (previous current : option str) : Transition :=
  classify (nonempty previous) (nonempty current).

Definition release_worthy (t : Transition) : bool :=
  match t with
  | FirstRelease | Bump => true
  | NoChange | Indeterminate => false
  end.

(** The release flag of the role an artifact is released under. *)
Definition role_flag (release_name : str) (l : locals) : bool :=
  if str_eqb release_name (lit "chatty") then client_release_needed l
  else if str_eqb release_name (lit "chatty-server") then server_release_needed l
  else false.

(** The version recorded for the role an artifact is released under. *)
Definition role_version (release_name : str) (l : locals) : option str :=
  if str_eqb release_name (lit "chatty") then client_version l
  else if str_eqb release_name (lit "chatty-server") then server_version l
  else None.

Fixpoint starts_with (prefix s : str) : bool :=
  match prefix, s with
  | [], _ => true
  | x :: prefix', y :: s' => (x =? y) && starts_with prefix' s'
  | _ :: _, [] => false
  end.

(** Some write among the events starts a line with [<role>_version=]. *)
Definition writes_version_key (role : str) (evs : list event) : bool :=
  existsb (fun ev =>
             match ev with
             | EvWrite _ text => starts_with (role ++ lit "_version=") text
             | _ => false
             end) evs.

(** Everything [emit] writes for the variables [l], in order. *)
Definition emitted_writes (l : locals) : list str :=
  [ release_flag_line (lit "server") (server_release_needed l);
    release_flag_line (lit "client") (client_release_needed l) ]
  ++ (match nonempty (server_version l) with
      | Some v => [version_line (lit "server") v]
      | None => []
      end)
  ++ (match nonempty (client_version l) with
      | Some v => [version_line (lit "client") v]
      | None => []
      end).

Definition content_of (st : state) (path : str) : str :=
  match files st path with Some c => c | None => [] end.

(** A manifest declaring the version [v]. *)
Definition manifest_text (v : str) : str :=
  lit "[package]" ++ newline ++ lit "version = " ++ [0x22] ++ v ++ [0x22]
    ++ newline.

Definition empty_state : state :=
  {| trace := []; files := fun _ => None |}.

(** Where [get_version] takes the manifest text from. *)
Definition manifest_source (w : World) (path : str) (content : option str)
    : result str :=
  match content with
  | Some c => Ok c
  | None => read_text w path
  end.

(** The document has no [package.version] to give. *)
Definition lacks_version (doc : manifest_doc) : bool :=
  match doc with
  | Package (Some _) => false
  | _ => true
  end.

(** A manifest whose version cannot be resolved: the file is missing, the
    text is not a well-formed document, or the document lacks
    [package.version]. *)
Inductive unresolvable (w : World) (path : str) (content : option str)
    : Prop :=
| manifest_missing :
    content = None ->
    read_text w path = Raise FileNotFoundError ->
    unresolvable w path content
| manifest_malformed : forall text,
    manifest_source w path content = Ok text ->
    toml_loads w text = Raise TOMLDecodeError ->
    unresolvable w path content
| version_lacking : forall text doc,
    manifest_source w path content = Ok text ->
    toml_loads w text = Ok doc ->
    lacks_version doc = true ->
    unresolvable w path content.

(** The part of it that [get_version] turns into [None]: the file is
    missing, or the document is well formed and has no ["package"] key, or
    its package table has no ["version"] key. *)
Inductive version_not_declared (w : World) (path : str)
    (content : option str) : Prop :=
| not_declared_missing :
    content = None ->
    read_text w path = Raise FileNotFoundError ->
    version_not_declared w path content
| not_declared_no_package : forall text,
    manifest_source w path content = Ok text ->
    toml_loads w text = Ok NoPackage ->
    version_not_declared w path content
| not_declared_no_field : forall text,
    manifest_source w path content = Ok text ->
    toml_loads w text = Ok (Package None) ->
    version_not_declared w path content.

(** A history lookup that fails: [git] exits with a non-zero status (bad
    commit reference, path unknown at that commit), or cannot be run at
    all. *)
Definition lookup_fails (w : World) (before_sha path : str) : Prop :=
  match run_process w (git_show_argv before_sha path) with
  | Exited code _ => code <> 0%Z
  | Failed _ => True
  end.

(** ** Sample worlds *)

(** A parser oracle that knows the manifests declaring the listed versions
    and the empty document, and rejects every other text. *)
Definition sample_loads (versions : list str) (text : str)
    : result manifest_doc :=
  match find (fun v => str_eqb text (manifest_text v)) versions with
  | Some v => Ok (Package (Some v))
  | None => if truthy text then Raise TOMLDecodeError else Ok NoPackage
  end.

(** A world given by its two environment variables, the text of the
    manifest in the working tree, how every [git] call ends, and the
    parser. *)
Definition sample_world (before_sha output_file : option str)
    (manifest : result str) (git : proc_outcome)
    (loads : str -> result manifest_doc) : World :=
  {| environ := fun key =>
       if str_eqb key (lit "BEFORE_SHA") then before_sha
       else if str_eqb key (lit "GITHUB_OUTPUT") then output_file
       else None;
     read_text := fun _ => manifest;
     toml_loads := loads;
     run_process := fun _ => git;
     open_error := fun _ => None |}.

Definition sample_sha : str := str_repeat (lit "a1") 20.

Definition client_manifest : str := lit "crates/chatty_client_gui/Cargo.toml".

(** [git] is not installed. *)
Definition world_without_git : World :=
  sample_world (Some sample_sha) None (Ok (manifest_text (lit "1.0.0")))
    (Failed FileNotFoundError) (sample_loads [lit "1.0.0"]).

(** The commit does not have the path: [git show] exits with status 128. *)
Definition world_unknown_path : World :=
  sample_world (Some sample_sha) None (Ok (manifest_text (lit "1.0.0")))
    (Exited 128 []) (sample_loads [lit "1.0.0"]).

(** The manifest in the working tree stops in the middle of a table
    header. *)
Definition world_malformed : World :=
  sample_world (Some sample_sha) None (Ok (lit "[package"))
    (Exited 128 []) (sample_loads []).

(** The manifest binds ["package"] to a string. *)
Definition world_package_string : World :=
  sample_world (Some sample_sha) None (Ok (lit "package = 'chatty'"))
    (Exited 128 []) (fun _ => Ok PackageNotTable).

(** No manifest in the working tree. *)
Definition world_missing : World :=
  sample_world (Some sample_sha) None (Raise FileNotFoundError)
    (Exited 128 []) (sample_loads []).

(** No base commit in the environment; [git rev-parse] prints a commit. *)
Definition world_parent : World :=
  sample_world None None (Ok (manifest_text (lit "1.0.0")))
    (Exited 0 (sample_sha ++ newline)) (sample_loads [lit "1.0.0"]).

(** Version [1.0.0] now and at the base commit, results appended to
    [out.txt]. *)
Definition world_unchanged : World :=
  sample_world (Some sample_sha) (Some (lit "out.txt"))
    (Ok (manifest_text (lit "1.0.0")))
    (Exited 0 (manifest_text (lit "1.0.0"))) (sample_loads [lit "1.0.0"]).

(** Version [1.0.0] now, an empty manifest at the base commit. *)
Definition world_empty_history : World :=
  sample_world (Some sample_sha) (Some (lit "out.txt"))
    (Ok (manifest_text (lit "1.0.0")))
    (Exited 0 []) (sample_loads [lit "1.0.0"]).

(** A result file that already has a line. *)
Definition state_with_output : state :=
  {| trace := [];
     files := fun p =>
       if str_eqb p (lit "out.txt") then Some (lit "earlier=1" ++ newline)
       else None |}.



(* ------------------------------------------------------------------ *)
(** ** Closed forms of what the script computes *)

(** The components of a version that pass the [isdigit] filter. *)
Definition kept_parts (v : str) : list str := filter isdigit (split_on dot v).

(** A kept component that [int] converts: decimal digits only, and no more
    of them than the interpreter's limit. *)
Definition convertible_part (p : str) : bool :=
  forallb isdecimal_char p && Nat.leb (List.length p) int_max_str_digits.

(** Every kept component of the version converts. *)
Definition converts (v : str) : bool := forallb convertible_part (kept_parts v).

(** The numbers the kept components write. *)
Definition kept_numbers (v : str) : list Z := map number_of (kept_parts v).

(** The events of one [get_version] call. *)
Definition get_version_events (w : World) (path : str) (content : option str)
    : list event :=
  match content with
  | Some c => [EvLoads c]
  | None =>
      EvRead path ::
      match read_text w path with
      | Ok text => [EvLoads text]
      | Raise _ => []
      end
  end.

(** A release flag that is on has a non-empty version beside it. *)
Definition versions_recorded (l : locals) : Prop :=
  (server_release_needed l = true -> truthy_opt (server_version l) = true) /\
  (client_release_needed l = true -> truthy_opt (client_version l) = true).

(** The parser accepts the text, and the document's ["package"] entry, if
    there is one, is a table. *)
Definition well_formed (w : World) (text : str) : Prop :=
  exists doc, toml_loads w text = Ok doc /\ doc <> PackageNotTable.

(** An effectful step that leaves every file as it is. *)
Definition keeps_files {A : Type} (m : M A) : Prop :=
  forall st, files (snd (m st)) = files st.

(** An effectful step that can only change the file [path]. *)
Definition changes_only {A : Type} (path : str) (m : M A) : Prop :=
  forall st p, p <> path -> files (snd (m st)) p = files st p.

(** Line 86: the comparator is consulted only for a previous version that
    is a non-empty string. *)
Definition version_bumped (previous current : option str) : bool :=
  truthy_opt previous &&
  match compare_versions previous current with
  | Ok b => b
  | Raise _ => false
  end.

(** Lines 84-90: an artifact asks for a release. *)
Definition release_due (previous current : option str) : bool :=
  truthy_opt current &&
  (match previous with None => true | Some _ => false end
   || version_bumped previous current).

(** Lines 84-105: the variables after one artifact. *)
Definition recorded (release_name : str) (previous current : option str)
    (l : locals) : locals :=
  if truthy_opt current then
    if str_eqb release_name (lit "chatty") then
      {| server_release_needed := server_release_needed l;
         client_release_needed :=
           client_release_needed l || release_due previous current;
         server_version := server_version l;
         client_version := current |}
    else if str_eqb release_name (lit "chatty-server") then
      {| server_release_needed :=
           server_release_needed l || release_due previous current;
         client_release_needed := client_release_needed l;
         server_version := current;
         client_version := client_version l |}
    else l
  else l.

(** The base commit [resolve_before_sha] settles on when [git rev-parse]
    ends as given. *)
Definition parent_or_null (outcome : proc_outcome) : result str :=
  match outcome with
  | Exited code out =>
      if (code =? 0)%Z
      then Ok (if truthy (strip out) then strip out else null_sha)
      else Ok null_sha
  | Failed e =>
      if isinstance e CalledProcessError then Ok null_sha else Raise e
  end.

(** A world with a bumped client: [1.1.9] at the base commit, [1.2.0] in
    the working tree. *)
Definition world_bumped : World :=
  sample_world (Some sample_sha) (Some (lit "out.txt"))
    (Ok (manifest_text (lit "1.2.0")))
    (Exited 0 (manifest_text (lit "1.1.9")))
    (sample_loads [lit "1.2.0"; lit "1.1.9"]).

(** The first commit of a repository: no base commit in the environment,
    [git] exits with a failure for every request. *)
Definition world_first_commit : World :=
  sample_world None (Some (lit "out.txt"))
    (Ok (manifest_text (lit "0.1.0")))
    (Exited 128 []) (sample_loads [lit "0.1.0"]).

(** No manifest, now or at the base commit. *)
Definition world_no_manifest : World :=
  sample_world (Some sample_sha) (Some (lit "out.txt"))
    (Raise FileNotFoundError) (Exited 128 []) (sample_loads []).

(* ------------------------------------------------------------------ *)
(** ** The translation audit: [tools/i18n_audit.py]

    The parts of the audit that work on text and on collections: the keys
    of a locale file, the listing of missing keys, and the report with its
    exit status.  The scan of the Rust sources (regular expressions over a
    directory walk) is left out; its result, the set of used keys, is an
    input of the report. *)

Definition hash_sign : char := 0x23.
Definition colon : char := 0x3a.

(** [c in s] for a one-character string [c]. *)
Definition contains (c : char) (s : str) : bool := existsb (N.eqb c) s.

(** [s.split(sep, 1)[0]]: what comes before the first separator. *)
Fixpoint before_first (sep : char) (s : str) : str :=
  match s with
  | [] => []
  | c :: r => if c =? sep then [] else c :: before_first sep r
  end.

(** Lines 19-28: the key a line of a locale file declares, if any. *)
Definition line_key (raw_line : str) : option str :=
  let line := strip raw_line in
  if negb (truthy line) || starts_with [hash_sign] line then None
  else if negb (contains colon line) then None
  else
    let key := strip (before_first colon line) in
    if negb (truthy key) then None else Some key.

(** A [set[str]] as the list of its elements, each once. *)
Definition set_mem (k : str) (s : list str) : bool := existsb (str_eqb k) s.

(** [s.add(k)] *)
Definition set_add (k : str) (s : list str) : list str :=
  if set_mem k s then s else s ++ [k].

(** The lines a text file yields when iterated over: the text is cut after
    each line feed. *)
Fixpoint file_lines (text : str) : list str :=
  match text with
  | [] => []
  | c :: r =>
      if c =? 0xa then [c] :: file_lines r
      else match file_lines r with
           | [] => [[c]]
           | h :: t => (c :: h) :: t
           end
  end.

(** The loop of lines 18-28. *)
Fixpoint keys_of_lines (lines : list str) (keys : list str) : list str :=
  match lines with
  | [] => keys
  | raw_line :: rest =>
      keys_of_lines rest
        (match line_key raw_line with
         | Some key => set_add key keys
         | None => keys
         end)
  end.

(** [parse_flat_yaml_keys]; the world's [read_text] stands for opening the
    file as UTF-8 text and reading it through. *)
Definition parse_flat_yaml_keys (w : World) (file_path : str)
    : M (list str) :=
  text <- path_read_text w file_path ;;
  mret (keys_of_lines (file_lines text) []).

(** [f"{n}"] for a length, and for an integer. *)
Definition show_nat (n : nat) : str :=
  lit (NilEmpty.string_of_uint (Nat.to_uint n)).

Definition show_int (z : Z) : str :=
  lit (NilEmpty.string_of_int (Z.to_int z)).

(** The length of [items[:limit]]: a negative limit counts from the end. *)
Definition slice_end (len : nat) (limit : Z) : nat :=
  if (limit <? 0)%Z then Z.to_nat (Z.max 0 (Z.of_nat len + limit))
  else Nat.min len (Z.to_nat limit).

Fixpoint print_items (items : list str) : M unit :=
  match items with
  | [] => mret tt
  | key :: rest => print (lit "- " ++ key) ;;; print_items rest
  end.

Definition print_list (title : str) (items : list str) (limit : Z) : M unit :=
  print (newline ++ title ++ lit ": " ++ show_nat (List.length items)) ;;;
  print_items (firstn (slice_end (List.length items) limit) items) ;;;
  if (limit <? Z.of_nat (List.length items))%Z
  then print (lit "... (" ++ show_int (Z.of_nat (List.length items) - limit)
                ++ lit " more)")
  else mret tt.

(** [a <= b] on strings: code point by code point, a prefix first. *)
Fixpoint str_leb (a b : str) : bool :=
  match a, b with
  | [], _ => true
  | _ :: _, [] => false
  | x :: a', y :: b' => (x <? y) || ((x =? y) && str_leb a' b')
  end.

Fixpoint insert_sorted (k : str) (l : list str) : list str :=
  match l with
  | [] => [k]
  | h :: t => if str_leb k h then k :: l else h :: insert_sorted k t
  end.

(** [sorted(keys)] *)
Definition sorted (keys : list str) : list str :=
  fold_right insert_sorted [] keys.

(** A [dict] from names to values, as its items in insertion order. *)
Definition dict (V : Type) : Type := list (str * V).

(** [d.get(name, default)] *)
Fixpoint dict_get {V : Type} (d : dict V) (name : str) (default : V) : V :=
  match d with
  | [] => default
  | (n, v) :: rest => if str_eqb n name then v else dict_get rest name default
  end.

(** [d.setdefault(name, []).append(key)] *)
Fixpoint dict_append (d : dict (list str)) (name key : str)
    : dict (list str) :=
  match d with
  | [] => [(name, [key])]
  | (n, l) :: rest =>
      if str_eqb n name then (n, l ++ [key]) :: rest
      else (n, l) :: dict_append rest name key
  end.

(** Line 92: the locales that lack the key. *)
Definition missing_locales (locale_keys : dict (list str)) (key : str)
    : list str :=
  map fst (filter (fun item => negb (set_mem key (snd item))) locale_keys).

(** Lines 91-96: the two collections of missing keys. *)
Fixpoint collect_missing (keys : list str) (locale_keys : dict (list str))
    (missing_by_locale : dict (list str)) (missing_all : list str)
    : dict (list str) * list str :=
  match keys with
  | [] => (missing_by_locale, missing_all)
  | key :: rest =>
      let names := missing_locales locale_keys key in
      let missing_all' :=
        if Nat.eqb (List.length names) (List.length locale_keys)
        then missing_all ++ [key] else missing_all in
      collect_missing rest locale_keys
        (fold_left (fun d name => dict_append d name key) names
                   missing_by_locale)
        missing_all'
  end.

(** Truth value of a list. *)
Definition truthy_list {A : Type} (l : list A) : bool :=
  match l with [] => false | _ :: _ => true end.

(** Lines 100-105. *)
Fixpoint print_missing (names : list str) (missing_by_locale : dict (list str))
    (any_missing : bool) : M bool :=
  match names with
  | [] => mret any_missing
  | name :: rest =>
      let missing := dict_get missing_by_locale name [] in
      print_list (lit "Missing in " ++ name) missing 200 ;;;
      print_missing rest missing_by_locale
        (if truthy_list missing then true else any_missing)
  end.

(** Lines 88-111 of the audit's [main]: the report over the used keys and
    the keys of each locale, and the exit status. *)
Definition report (src_dir : str) (used_keys : list str)
    (locale_keys : dict (list str)) : M Z :=
  let (missing_by_locale, missing_all) :=
    collect_missing (sorted used_keys) locale_keys [] [] in
  print (lit "Found " ++ show_nat (List.length used_keys)
           ++ lit " unique t!(" ++ [0x22] ++ lit "..." ++ [0x22]
           ++ lit ") keys in " ++ src_dir) ;;;
  any_missing <- print_missing (sorted (map fst locale_keys))
                   missing_by_locale false ;;
  any_missing <-
    (if truthy_list missing_all
     then print_list (lit "Missing in ALL locales") missing_all 200 ;;;
          mret true
     else mret any_missing) ;;
  mret (if any_missing then 2%Z else 0%Z).

(** Every used key is among the keys of every locale. *)
Definition all_translated (used_keys : list str)
    (locale_keys : dict (list str)) : Prop :=
  forall key name keys,
    In key used_keys -> In (name, keys) locale_keys ->
    set_mem key keys = true.

(** Blank characters only. *)
Definition blank (s : str) : bool := forallb isspace_char s.

(** [s.rstrip()]; [strip] is [rstrip] after [lstrip]. *)
Definition rstrip (s : str) : str := rev (lstrip (rev s)).

(** A locale file of four lines: a comment, two keys, and one of them
    again. *)
Definition locale_text : str :=
  lit "# English" ++ newline ++ lit "app.title: Chatty" ++ newline
    ++ lit "  menu.file : File" ++ newline ++ lit "app.title: Again".

(** A world where every path reads as that locale file. *)
Definition world_locale : World :=
  sample_world None None (Ok locale_text) (Exited 0 []) (sample_loads []).

(** Two locales, the second lacking a key. *)
Definition sample_locales : dict (list str) :=
  [ (lit "en.yml", [lit "app.title"; lit "menu.file"]);
    (lit "pt.yml", [lit "app.title"]) ].

(** No base commit in the environment and no [git] to ask. *)
Definition world_no_git_at_all : World :=
  sample_world None None (Ok (manifest_text (lit "1.0.0")))
    (Failed FileNotFoundError) (sample_loads [lit "1.0.0"]).

(** The bumped client again, with a result file that may not be written. *)
Definition world_read_only : World :=
  {| environ := environ world_bumped;
     read_text := read_text world_bumped;
     toml_loads := toml_loads world_bumped;
     run_process := run_process world_bumped;
     open_error := fun _ => Some PermissionError |}.

(** The empty string as the version at the base commit, [1.0] in the
    working tree. *)
Definition world_empty_previous : World :=
  sample_world (Some sample_sha) (Some (lit "out.txt"))
    (Ok (manifest_text (lit "1.0")))
    (Exited 0 (manifest_text [])) (sample_loads [lit "1.0"; []]).

(* ------------------------------------------------------------------ *)
(** * Properties *)

(** ** Strings and tuples *)

Lemma str_eqb_spec (a b : str) : str_eqb a b = true <-> a = b.
Proof.
  revert b; induction a as [|x a IH]; intros [|y b]; simpl;
    try (split; [discriminate | discriminate]); try tauto.
  rewrite andb_true_iff, N.eqb_eq, IH.
  split; [intros [-> ->]; reflexivity | intros H; inversion H; auto].
Qed.

Lemma str_eqb_refl (a : str) : str_eqb a a = true.
Proof. apply str_eqb_spec; reflexivity. Qed.

Lemma str_eqb_neq (a b : str) : str_eqb a b = false <-> a <> b.
Proof.
  rewrite <- str_eqb_spec. destruct (str_eqb a b); split; congruence.
Qed.

Lemma tuple_gt_lex (a b : list Z) : tuple_gt a b = true <-> lex_lt b a.
Proof.
  revert b; induction a as [|x a IH]; intros [|y b]; simpl.
  - split; [discriminate | inversion 1].
  - split; [discriminate | inversion 1].
  - split; [constructor | reflexivity].
  - destruct (Z.eqb_spec x y) as [->|Hne].
    + rewrite IH. split; [apply lex_tail | ].
      inversion 1; subst; [lia | assumption].
    + rewrite Z.ltb_lt. split; [apply lex_head | ].
      inversion 1; subst; [assumption | congruence].
Qed.

Lemma tuple_gt_irrefl (a : list Z) : tuple_gt a a = false.
Proof.
  induction a as [|x a IH]; simpl; [reflexivity|].
  rewrite Z.eqb_refl; exact IH.
Qed.

(** ** Conversion of the components *)

Lemma py_int_raises (p : str) (e : exn) : py_int p = Raise e -> e = ValueError.
Proof.
  unfold py_int. destruct p as [|c r]; [congruence|].
  destruct (digits_value 0 (c :: r)); [|congruence].
  destruct (Nat.ltb _ _); congruence.
Qed.

Lemma ints_of_parts_raises (parts : list str) (e : exn) :
  ints_of_parts parts = Raise e -> e = ValueError.
Proof.
  induction parts as [|p rest IH]; simpl; [discriminate|].
  destruct (isdigit p); [|exact IH].
  destruct (py_int p) eqn:Hp; simpl.
  - destruct (ints_of_parts rest); simpl; [discriminate|].
    intros H; apply IH; congruence.
  - intros H; inversion H; subst. eapply py_int_raises; eassumption.
Qed.

Lemma ints_of_parts_dropped (parts : list str) :
  forallb dropped parts = true -> ints_of_parts parts = Ok [].
Proof.
  induction parts as [|p rest IH]; simpl; [reflexivity|].
  unfold dropped at 1. rewrite andb_true_iff, negb_true_iff.
  intros [-> H]; auto.
Qed.

Lemma isdecimal_isdigit (p : str) :
  forallb isdecimal_char p = true -> forallb isdigit_char p = true.
Proof.
  induction p as [|c r IH]; simpl; [reflexivity|].
  rewrite !andb_true_iff. intros [Hc Hr]. unfold isdigit_char.
  rewrite Hc; auto.
Qed.

Lemma digits_value_decimal (p : str) (acc : Z) :
  forallb isdecimal_char p = true ->
  digits_value acc p
  = Some (fold_left (fun a c => (10 * a + digit_of c)%Z) p acc).
Proof.
  revert acc; induction p as [|c r IH]; intros acc; simpl; [reflexivity|].
  rewrite andb_true_iff. unfold isdecimal_char at 1, digit_of at 2.
  intros [Hc Hr]. destruct (decimal_value c); [|discriminate].
  apply IH; assumption.
Qed.

Lemma py_int_decimal (p : str) :
  decimal_string p = true ->
  Nat.leb (List.length p) int_max_str_digits = true ->
  py_int p = Ok (number_of p).
Proof.
  unfold decimal_string, py_int, number_of.
  rewrite andb_true_iff. intros [Hne Hd] Hlen.
  destruct p as [|c r]; [discriminate|].
  rewrite (digits_value_decimal _ _ Hd).
  replace (Nat.ltb int_max_str_digits (List.length (c :: r))) with false;
    [reflexivity|].
  symmetry. apply Nat.ltb_ge. apply Nat.leb_le. exact Hlen.
Qed.

Lemma ints_of_parts_numeric (parts : list str) :
  forallb decimal_string parts = true ->
  forallb (fun p => Nat.leb (List.length p) int_max_str_digits) parts = true ->
  ints_of_parts parts = Ok (map number_of parts).
Proof.
  induction parts as [|p rest IH]; simpl; [reflexivity|].
  rewrite !andb_true_iff. intros [Hp Hrest] [Lp Lrest].
  assert (Hdig : isdigit p = true).
  { unfold decimal_string in Hp. apply andb_true_iff in Hp as [Hne Hd].
    unfold isdigit. rewrite Hne, (isdecimal_isdigit _ Hd). reflexivity. }
  rewrite Hdig, (py_int_decimal _ Hp Lp), (IH Hrest Lrest). reflexivity.
Qed.

(** ** The comparator *)

(** The comparator on two present versions, by what the conversion of the
    two gives. *)
Lemma compare_versions_present (p c : str) :
  compare_versions (Some p) (Some c)
  = match version_tuple p, version_tuple c with
    | Ok pt, Ok ct => Ok (tuple_gt ct pt)
    | _, _ => Ok (negb (str_eqb p c))
    end.
Proof.
  unfold compare_versions, version_tuple.
  destruct (ints_of_parts (split_on dot p)) eqn:Hp; simpl.
  - destruct (ints_of_parts (split_on dot c)) eqn:Hc; simpl; [reflexivity|].
    apply ints_of_parts_raises in Hc; subst; reflexivity.
  - apply ints_of_parts_raises in Hp; subst; reflexivity.
Qed.

Lemma compare_versions_returns (prev curr : option str) :
  exists b : bool, compare_versions prev curr = Ok b.
Proof.
  destruct prev as [p|], curr as [c|]; try (exists false; reflexivity).
  rewrite compare_versions_present.
  destruct (version_tuple p); [destruct (version_tuple c)|];
    eexists; reflexivity.
Qed.

(** C9: [compare_versions] returns a boolean on every pair of inputs, each
    absent or any string, and never raises; when either input is absent the
    boolean is [False]. *)
Theorem compare_versions_total (prev curr : option str) :
  (exists b : bool, compare_versions prev curr = Ok b) /\
  compare_versions None curr = Ok false /\
  compare_versions prev None = Ok false.
Proof.
  split; [apply compare_versions_returns|].
  split; [reflexivity|]. destruct prev; reflexivity.
Qed.

(** A version never bumps over itself. *)
Lemma compare_versions_same (v : str) :
  compare_versions (Some v) (Some v) = Ok false.
Proof.
  rewrite compare_versions_present.
  destruct (version_tuple v).
  - rewrite tuple_gt_irrefl; reflexivity.
  - rewrite str_eqb_refl; reflexivity.
Qed.

(** C1, as the code has it: when every dot-separated component of both
    versions is dropped, both integer sequences are empty and the comparator
    reports no bump, whether or not the two strings differ.  The comparison
    of the strings is reached only when converting a kept component raises. *)
Theorem compare_versions_all_dropped (prev curr : str) :
  all_dropped prev = true ->
  all_dropped curr = true ->
  compare_versions (Some prev) (Some curr) = Ok false.
Proof.
  unfold all_dropped. intros Hp Hc.
  rewrite compare_versions_present. unfold version_tuple.
  rewrite (ints_of_parts_dropped _ Hp), (ints_of_parts_dropped _ Hc).
  reflexivity.
Qed.

Lemma compare_versions_all_dropped_witness :
  all_dropped (lit "abc") = true /\
  all_dropped (lit "xyz") = true /\
  compare_versions (Some (lit "abc")) (Some (lit "xyz")) = Ok false.
Proof.
  split; [reflexivity|]. split; [reflexivity|].
  apply compare_versions_all_dropped; reflexivity.
Defined.

(** C1 as stated fails: ["abc"] and ["xyz"] have only dropped components and
    differ, yet the comparator answers [False] where string inequality would
    answer [True]. *)
Lemma all_dropped_inequality_fails :
  ~ (forall prev curr : str,
        all_dropped prev = true ->
        all_dropped curr = true ->
        compare_versions (Some prev) (Some curr)
        = Ok (negb (str_eqb prev curr))).
Proof.
  intros H.
  specialize (H (lit "abc") (lit "xyz") eq_refl eq_refl).
  vm_compute in H. discriminate H.
Qed.

(** C4, within what the interpreter converts: for two versions whose
    components are all runs of decimal digits, none longer than
    [int_max_str_digits], the comparator answers [True] exactly when the
    current integer sequence is lexicographically greater than the previous
    one, a strict prefix being less, and [False] otherwise. *)
Theorem compare_versions_numeric (prev curr : str) :
  all_numeric prev = true ->
  all_numeric curr = true ->
  convertible prev = true ->
  convertible curr = true ->
  (compare_versions (Some prev) (Some curr) = Ok true
   <-> lex_lt (integer_sequence prev) (integer_sequence curr)) /\
  (compare_versions (Some prev) (Some curr) = Ok false
   <-> ~ lex_lt (integer_sequence prev) (integer_sequence curr)).
Proof.
  unfold all_numeric, convertible, integer_sequence.
  intros Np Nc Lp Lc.
  rewrite compare_versions_present. unfold version_tuple.
  rewrite (ints_of_parts_numeric _ Np Lp), (ints_of_parts_numeric _ Nc Lc).
  rewrite <- tuple_gt_lex.
  destruct (tuple_gt _ _); split; split; congruence.
Qed.

Lemma compare_versions_numeric_witness :
  compare_versions (Some (lit "1.2")) (Some (lit "1.2.0")) = Ok true
  <-> lex_lt (integer_sequence (lit "1.2")) (integer_sequence (lit "1.2.0")).
Proof.
  apply (compare_versions_numeric (lit "1.2") (lit "1.2.0"));
    vm_compute; reflexivity.
Defined.

(** ["1.2"] is below ["1.2.0"], and the other way round there is no bump. *)
Lemma shorter_version_is_less :
  compare_versions (Some (lit "1.2")) (Some (lit "1.2.0")) = Ok true /\
  compare_versions (Some (lit "1.2.0")) (Some (lit "1.2")) = Ok false.
Proof. split; reflexivity. Qed.

(** C4 as stated fails: a component of 4301 ones is purely numeric, but the
    interpreter refuses to convert it, the comparator falls back to string
    inequality and reports a bump to ["0"], which is not greater. *)
Lemma numeric_order_fails :
  ~ (forall prev curr : str,
        all_numeric prev = true ->
        all_numeric curr = true ->
        (compare_versions (Some prev) (Some curr) = Ok true
         <-> lex_lt (integer_sequence prev) (integer_sequence curr))).
Proof.
  intros H.
  specialize (H (str_repeat (lit "1") 4301) (lit "0")).
  assert (Hp : all_numeric (str_repeat (lit "1") 4301) = true)
    by (vm_compute; reflexivity).
  assert (Hc : all_numeric (lit "0") = true) by reflexivity.
  assert (Hb : compare_versions (Some (str_repeat (lit "1") 4301))
                                (Some (lit "0")) = Ok true)
    by (vm_compute; reflexivity).
  apply (H Hp Hc) in Hb. apply tuple_gt_lex in Hb.
  vm_compute in Hb. discriminate Hb.
Qed.

(** Superscript two is a digit for [isdigit] and not for [int]: the
    conversion raises and the strings are compared instead, so a bump is
    reported in both directions. *)
Lemma superscript_digit_falls_back :
  compare_versions (Some [0xb2]) (Some (lit "1")) = Ok true /\
  compare_versions (Some (lit "1")) (Some [0xb2]) = Ok true.
Proof. split; reflexivity. Qed.

(** ** The manifest reader *)

Lemma after_after (st : state) (evs evs' : list event) :
  after (after st evs) evs' = after st (evs ++ evs').
Proof. unfold after; simpl. rewrite app_assoc. reflexivity. Qed.

Ltac run_io :=
  unfold mtry, mbind, mret, mraise, lift, log, print, path_read_text,
         tomllib_loads, subprocess_run_check;
  cbn beta iota.

(** Reading the working tree's manifest when the file is there and declares
    a version. *)
Lemma get_version_declared (w : World) (path text v : str) (st : state) :
  read_text w path = Ok text ->
  toml_loads w text = Ok (Package (Some v)) ->
  get_version w path None st
  = (Ok (Some v), after st [EvRead path; EvLoads text]).
Proof.
  intros Hr Hl. unfold get_version. run_io.
  rewrite Hr. cbn. rewrite Hl. cbn. rewrite after_after. reflexivity.
Qed.

(** Reading a version out of text that was handed in. *)
Lemma get_version_of_content (w : World) (path text v : str) (st : state) :
  toml_loads w text = Ok (Package (Some v)) ->
  get_version w path (Some text) st = (Ok (Some v), after st [EvLoads text]).
Proof.
  intros Hl. unfold get_version. run_io. rewrite Hl. reflexivity.
Qed.

(** What the reader lets through: a parser error, and a ["package"] entry
    that is not a table. *)
Lemma get_version_raises (w : World) (path text : str) (st : state) :
  (toml_loads w text = Raise TOMLDecodeError ->
   fst (get_version w path (Some text) st) = Raise TOMLDecodeError) /\
  (toml_loads w text = Ok PackageNotTable ->
   fst (get_version w path (Some text) st) = Raise TypeError).
Proof.
  split; intros Hl; unfold get_version; run_io; rewrite Hl; reflexivity.
Qed.

(** C2, as the code has it: when the manifest file is missing, or the
    document is well formed and has no ["package"] key, or its package table
    has no ["version"] key, [get_version] returns [None] and does not
    raise. *)
Theorem get_version_not_declared (w : World) (path : str)
    (content : option str) (st : state) :
  version_not_declared w path content ->
  exists st', get_version w path content st = (Ok None, st').
Proof.
  intros [Hc Hr | text Hs Hl | text Hs Hl]; unfold get_version; run_io.
  - subst content. rewrite Hr. cbn. eexists; reflexivity.
  - destruct content as [c|]; cbn in Hs.
    + inversion Hs; subst. rewrite Hl. cbn. eexists; reflexivity.
    + rewrite Hs. cbn. rewrite Hl. cbn. eexists; reflexivity.
  - destruct content as [c|]; cbn in Hs.
    + inversion Hs; subst. rewrite Hl. cbn. eexists; reflexivity.
    + rewrite Hs. cbn. rewrite Hl. cbn. eexists; reflexivity.
Qed.

Lemma get_version_not_declared_witness :
  version_not_declared world_missing client_manifest None /\
  exists st',
    get_version world_missing client_manifest None empty_state = (Ok None, st').
Proof.
  assert (H : version_not_declared world_missing client_manifest None)
    by (apply not_declared_missing; reflexivity).
  split; [exact H|].
  exact (get_version_not_declared _ _ _ empty_state H).
Defined.

(** C2 as stated fails: a manifest that stops in the middle of a table
    header is malformed, and [get_version] raises the parser's
    [TOMLDecodeError] instead of returning [None]. *)
Lemma unresolvable_version_raises :
  ~ (forall (w : World) (path : str) (content : option str) (st : state),
        unresolvable w path content ->
        fst (get_version w path content st) = Ok None).
Proof.
  intros H.
  specialize (H world_malformed client_manifest None empty_state).
  assert (U : unresolvable world_malformed client_manifest None).
  { apply manifest_malformed with (text := lit "[package"); reflexivity. }
  apply H in U. vm_compute in U. discriminate U.
Qed.

(** A manifest that binds ["package"] to a string lacks [package.version]
    as well, and the reader raises the [TypeError] of subscripting a
    string. *)
Lemma package_not_table_raises :
  unresolvable world_package_string client_manifest None /\
  fst (get_version world_package_string client_manifest None empty_state)
  = Raise TypeError.
Proof.
  split; [|reflexivity].
  apply version_lacking
    with (text := lit "package = 'chatty'") (doc := PackageNotTable);
    reflexivity.
Qed.

(** ** The history fetcher *)

(** C6: for the all-zero commit reference [get_previous_content] returns
    [None] and leaves the state as it was: no [git] call, nor any other
    event, is issued. *)
Theorem get_previous_content_null (w : World) (path : str) (st : state) :
  get_previous_content w null_sha path st = (Ok None, st).
Proof.
  unfold get_previous_content. rewrite str_eqb_refl. reflexivity.
Qed.

Lemma get_previous_content_exited (w : World) (before_sha path : str)
    (st : state) (code : Z) (out : str) :
  str_eqb before_sha null_sha = false ->
  run_process w (git_show_argv before_sha path) = Exited code out ->
  get_previous_content w before_sha path st
  = (Ok (if (code =? 0)%Z then Some out else None),
     after st [EvRun (git_show_argv before_sha path)]).
Proof.
  intros Hn Hr. unfold get_previous_content. rewrite Hn. run_io.
  rewrite Hr. destruct (code =? 0)%Z; reflexivity.
Qed.

(** C5, as the code has it: when [git show] runs and exits with a failure
    status (bad commit reference, path unknown at that commit),
    [get_previous_content] returns [None] and does not raise. *)
Theorem get_previous_content_failed_exit (w : World) (before_sha path : str)
    (st : state) (code : Z) (out : str) :
  run_process w (git_show_argv before_sha path) = Exited code out ->
  code <> 0%Z ->
  exists st', get_previous_content w before_sha path st = (Ok None, st').
Proof.
  intros Hr Hc.
  destruct (str_eqb before_sha null_sha) eqn:Hn.
  - unfold get_previous_content. rewrite Hn. eexists; reflexivity.
  - rewrite (get_previous_content_exited w before_sha path st code out Hn Hr).
    apply Z.eqb_neq in Hc. rewrite Hc. eexists; reflexivity.
Qed.

Lemma get_previous_content_failed_exit_witness :
  exists st',
    get_previous_content world_unknown_path sample_sha client_manifest
      empty_state = (Ok None, st').
Proof.
  apply (get_previous_content_failed_exit world_unknown_path sample_sha
           client_manifest empty_state 128%Z []).
  - reflexivity.
  - discriminate.
Defined.

(** C5 as stated fails: where [git] is not installed the lookup fails, and
    [get_previous_content] raises the [FileNotFoundError] of
    [subprocess.run] instead of returning [None]. *)
Lemma lookup_failure_raises :
  ~ (forall (w : World) (before_sha path : str) (st : state),
        lookup_fails w before_sha path ->
        fst (get_previous_content w before_sha path st) = Ok None).
Proof.
  intros H.
  specialize (H world_without_git sample_sha client_manifest empty_state I).
  vm_compute in H. discriminate H.
Qed.

(** What neither [except CalledProcessError] clause handles: an error of
    [subprocess.run] itself leaves [get_previous_content] and the resolution
    of the base commit as it is. *)
Lemma subprocess_error_propagates (w : World) (before_sha path : str)
    (st : state) (e : exn) :
  isinstance e CalledProcessError = false ->
  (before_sha <> null_sha ->
   run_process w (git_show_argv before_sha path) = Failed e ->
   fst (get_previous_content w before_sha path st) = Raise e) /\
  (nonempty (environ w (lit "BEFORE_SHA")) = None ->
   run_process w git_rev_parse_argv = Failed e ->
   fst (resolve_before_sha w st) = Raise e).
Proof.
  intros He. split.
  - intros Hsha Hrun. apply str_eqb_neq in Hsha.
    unfold get_previous_content. rewrite Hsha. run_io. rewrite Hrun.
    cbn -[isinstance]. rewrite He. reflexivity.
  - intros Hno Hrun. unfold resolve_before_sha, environ_get.
    assert (Hget : truthy match environ w (lit "BEFORE_SHA") with
                          | Some v => v | None => [] end = false).
    { destruct (environ w (lit "BEFORE_SHA")) as [[|c r]|];
        cbn in Hno; try reflexivity; discriminate. }
    rewrite Hget. cbn [negb]. run_io. rewrite Hrun.
    cbn -[isinstance]. rewrite He. reflexivity.
Qed.

(** ** The base commit *)

Lemma resolve_before_sha_supplied (w : World) (st : state) (s : str) :
  environ w (lit "BEFORE_SHA") = Some s -> s <> [] ->
  resolve_before_sha w st = (Ok s, st).
Proof.
  unfold resolve_before_sha, environ_get.
  intros -> Hs. destruct s; [congruence | reflexivity].
Qed.



(** ** The release decision *)

Lemma role_flag_client (l : locals) :
  role_flag (lit "chatty") l = client_release_needed l.
Proof. reflexivity. Qed.

Lemma role_flag_server (l : locals) :
  role_flag (lit "chatty-server") l = server_release_needed l.
Proof. reflexivity. Qed.

Lemma classify_first_release (previous current : option str) :
  classify previous current = FirstRelease
  <-> previous = None /\ current <> None.
Proof.
  unfold classify. destruct current as [c|], previous as [p|].
  - destruct (compare_versions_returns (Some p) (Some c)) as [b ->].
    destruct b; split; [discriminate | intros [H _]; discriminate
                       | discriminate | intros [H _]; discriminate].
  - split; [split; [reflexivity | discriminate] | reflexivity].
  - split; [discriminate | intros [_ H]; congruence].
  - split; [discriminate | intros [_ H]; congruence].
Qed.

Lemma classify_bump (previous current : option str) :
  classify previous current = Bump
  <-> previous <> None /\ current <> None /\
      compare_versions previous current = Ok true.
Proof.
  unfold classify. destruct current as [c|], previous as [p|].
  - destruct (compare_versions_returns (Some p) (Some c)) as [b Hb].
    rewrite Hb. destruct b.
    + split; [repeat split; discriminate | reflexivity].
    + split; [discriminate | intros [_ [_ H]]; discriminate].
  - split; [discriminate | intros [H _]; congruence].
  - split; [discriminate | intros [_ [H _]]; congruence].
  - split; [discriminate | intros [H _]; congruence].
Qed.

(** Away from one input the decision follows the transition.  With a
    version that is absent or the empty string counted as absent, as lines
    80 and 84 count it, and for every previous version other than the empty
    string: an artifact released as client or server turns its role's
    release flag on exactly when its transition is a first release or a
    bump, and an artifact without a current version changes no variable. *)
Lemma record_release_follows_transition (release_name : str)
    (previous current : option str) (l : locals) (st : state) :
  release_name = lit "chatty" \/ release_name = lit "chatty-server" ->
  role_flag release_name l = false ->
  previous <> Some [] ->
  exists l' st',
    record_release release_name previous current l st = (Ok l', st') /\
    (role_flag release_name l' = true
     <-> release_worthy (classify_nonempty previous current) = true) /\
    (nonempty current = None -> l' = l).
Proof.
  intros Hname Hflag Hprev.
  destruct (compare_versions_returns previous current) as [b Hb].
  destruct current as [[|c cs]|].
  - exists l; eexists; split; [reflexivity|]. split; [|reflexivity].
    rewrite Hflag. unfold classify_nonempty, classify. cbn [nonempty truthy].
    split; discriminate.
  - destruct previous as [[|p ps]|];
      [exfalso; apply Hprev; reflexivity | |].
    + destruct Hname as [-> | ->]; rewrite ?role_flag_client,
        ?role_flag_server in *;
        unfold record_release; cbn [truthy truthy_opt]; run_io;
        rewrite Hb; destruct b; cbn -[classify_nonempty compare_versions];
        eexists; eexists; (split; [reflexivity|]);
        unfold classify_nonempty, classify; cbn [nonempty truthy];
        rewrite Hb; cbn [release_worthy client_release_needed
                         server_release_needed]; rewrite ?Hflag;
        (split; [split; auto | discriminate]).
    + destruct Hname as [-> | ->]; rewrite ?role_flag_client,
        ?role_flag_server in *;
        unfold record_release; run_io; cbn -[classify_nonempty];
        eexists; eexists; (split; [reflexivity|]);
        (split; [split; reflexivity | discriminate]).
  - exists l; eexists; split; [reflexivity|]. split; [|reflexivity].
    rewrite Hflag. unfold classify_nonempty, classify. cbn [nonempty].
    split; discriminate.
Qed.

Lemma record_release_follows_transition_example :
  exists l' st',
    record_release (lit "chatty") (Some (lit "1.1.9")) (Some (lit "1.2.0"))
      initial_locals empty_state = (Ok l', st') /\
    (role_flag (lit "chatty") l' = true
     <-> release_worthy
           (classify_nonempty (Some (lit "1.1.9")) (Some (lit "1.2.0")))
         = true) /\
    (nonempty (Some (lit "1.2.0")) = None -> l' = initial_locals).
Proof.
  apply record_release_follows_transition;
    [left; reflexivity | reflexivity | discriminate].
Defined.

(** C3: the input on which the code leaves the claim.  The manifest at the
    base commit declares the empty string as its version and the working
    tree declares ["1.0"].  The comparator calls that a bump, and the
    transition is a bump, or a first release when the empty version counts
    as absent; but the previous version is neither [None] (line 85) nor
    truthy (line 86), so the client's release flag stays off, for the
    artifact and for the whole run, which writes
    [client_release_needed=false]. *)
Theorem empty_previous_version_defect :
  compare_versions (Some []) (Some (lit "1.0")) = Ok true /\
  release_worthy (classify (Some []) (Some (lit "1.0"))) = true /\
  release_worthy (classify_nonempty (Some []) (Some (lit "1.0"))) = true /\
  record_release (lit "chatty") (Some []) (Some (lit "1.0")) initial_locals
    empty_state
  = (Ok {| server_release_needed := false; client_release_needed := false;
           server_version := None; client_version := Some (lit "1.0") |},
     empty_state) /\
  fst (main world_empty_previous empty_state)
  = Ok {| server_release_needed := false; client_release_needed := false;
          server_version := None; client_version := Some (lit "1.0") |} /\
  files (snd (main world_empty_previous empty_state)) (lit "out.txt")
  = Some (lit "server_release_needed=false" ++ newline
            ++ lit "client_release_needed=false" ++ newline
            ++ lit "client_version=1.0" ++ newline).
Proof.
  repeat split; vm_compute; reflexivity.
Qed.

(** An unchanged, non-empty version: the version is recorded for the role
    and the flags stay as they were, without a word on the console. *)
Lemma record_release_unchanged (v : str) (l : locals) (st : state) :
  v <> [] ->
  record_release (lit "chatty") (Some v) (Some v) l st
  = (Ok {| server_release_needed := server_release_needed l;
           client_release_needed := client_release_needed l;
           server_version := server_version l;
           client_version := Some v |}, st).
Proof.
  intros Hv. unfold record_release.
  destruct v as [|c cs]; [congruence|].
  cbn [truthy truthy_opt]. run_io.
  rewrite compare_versions_same. reflexivity.
Qed.

(** A first release of the client: version recorded, flag on, one line on
    the console. *)
Lemma record_release_first (release_name v : str) (l : locals) (st : state) :
  release_name = lit "chatty" \/ release_name = lit "chatty-server" ->
  v <> [] ->
  exists l' line,
    record_release release_name None (Some v) l st
    = (Ok l', after st [EvPrint line]) /\
    role_flag release_name l' = true.
Proof.
  intros Hname Hv. destruct v as [|c cs]; [congruence|].
  destruct Hname as [-> | ->]; unfold record_release; run_io;
    cbn -[lit app]; eexists; eexists; (split; [reflexivity|]); reflexivity.
Qed.

Lemma read_versions_empty_history (w : World)
    (before_sha crate_path text cv : str) (st : state) :
  before_sha <> null_sha ->
  run_process w (git_show_argv before_sha crate_path) = Exited 0 [] ->
  read_text w crate_path = Ok text ->
  toml_loads w text = Ok (Package (Some cv)) ->
  read_versions w before_sha crate_path st
  = (Ok (None, Some cv),
     after st [EvRead crate_path; EvLoads text;
               EvRun (git_show_argv before_sha crate_path)]).
Proof.
  intros Hsha Hgit Hread Hloads. apply str_eqb_neq in Hsha.
  unfold read_versions, mbind.
  rewrite (get_version_declared _ _ _ _ st Hread Hloads).
  rewrite (get_previous_content_exited w before_sha crate_path _ 0%Z []
             Hsha Hgit).
  cbn. rewrite after_after. reflexivity.
Qed.

(** C10: when [git show] succeeds with empty output for the manifest at the
    base commit, the previous version is [None] and the parser is run on the
    working tree's manifest only; with a current version that is a non-empty
    string the transition is a first release and the role's release flag is
    turned on. *)
Theorem empty_history_first_release (w : World)
    (before_sha crate_path release_name text cv : str)
    (l : locals) (st : state) :
  release_name = lit "chatty" \/ release_name = lit "chatty-server" ->
  before_sha <> null_sha ->
  run_process w (git_show_argv before_sha crate_path) = Exited 0 [] ->
  read_text w crate_path = Ok text ->
  toml_loads w text = Ok (Package (Some cv)) ->
  cv <> [] ->
  read_versions w before_sha crate_path st
  = (Ok (None, Some cv),
     after st [EvRead crate_path; EvLoads text;
               EvRun (git_show_argv before_sha crate_path)])
  /\ classify None (Some cv) = FirstRelease
  /\ exists l' line line',
       process_crate w before_sha (crate_path, release_name) l st
       = (Ok l',
          after st [EvRead crate_path; EvLoads text;
                    EvRun (git_show_argv before_sha crate_path);
                    EvPrint line; EvPrint line'])
       /\ role_flag release_name l' = true.
Proof.
  intros Hname Hsha Hgit Hread Hloads Hcv.
  pose proof (read_versions_empty_history _ _ _ _ _ st Hsha Hgit Hread Hloads)
    as Hrv.
  split; [exact Hrv|]. split; [reflexivity|].
  unfold process_crate, mbind at 1. rewrite Hrv.
  unfold mbind, print, log. cbn beta iota.
  match goal with
  | |- context [record_release _ _ _ _ ?s] =>
      destruct (record_release_first _ _ l s Hname Hcv)
        as [l' [line' [Hrec Hflag]]]
  end.
  exists l'. eexists. exists line'.
  rewrite Hrec. rewrite !after_after. cbn [app].
  split; [reflexivity | exact Hflag].
Qed.

Lemma empty_history_first_release_witness :
  exists l' line line',
    process_crate world_empty_history sample_sha
      (client_manifest, lit "chatty") initial_locals empty_state
    = (Ok l',
       after empty_state
         [EvRead client_manifest; EvLoads (manifest_text (lit "1.0.0"));
          EvRun (git_show_argv sample_sha client_manifest);
          EvPrint line; EvPrint line'])
    /\ role_flag (lit "chatty") l' = true.
Proof.
  apply (empty_history_first_release world_empty_history sample_sha
           client_manifest (lit "chatty") (manifest_text (lit "1.0.0"))
           (lit "1.0.0") initial_locals empty_state).
  - left; reflexivity.
  - vm_compute; discriminate.
  - reflexivity.
  - reflexivity.
  - reflexivity.
  - discriminate.
Defined.

(** ** The result file *)

(** The version an artifact leaves in its role's variable: its current
    version when that is a non-empty string, and what was there before
    otherwise. *)
Lemma record_release_version (release_name : str)
    (previous current : option str) (l : locals) (st : state) :
  release_name = lit "chatty" \/ release_name = lit "chatty-server" ->
  exists l' st',
    record_release release_name previous current l st = (Ok l', st') /\
    role_version release_name l'
    = if truthy_opt current then current else role_version release_name l.
Proof.
  intros Hname.
  destruct (compare_versions_returns previous current) as [b Hb].
  destruct current as [[|c cs]|];
    [ exists l; eexists; split; reflexivity | | exists l; eexists; split; reflexivity ].
  destruct previous as [[|p ps]|];
    destruct Hname as [-> | ->];
    unfold record_release; cbn [truthy truthy_opt]; run_io;
    rewrite ?Hb; destruct b; cbn -[compare_versions];
    eexists; eexists; split; reflexivity.
Qed.

Lemma emitted_version_keys (path : str) (l : locals) :
  writes_version_key (lit "server")
    (map (EvWrite path) (emitted_writes l)) = truthy_opt (server_version l)
  /\ writes_version_key (lit "client")
       (map (EvWrite path) (emitted_writes l)) = truthy_opt (client_version l).
Proof.
  unfold emitted_writes, writes_version_key.
  destruct (server_version l) as [[|a sv]|], (client_version l) as [[|b cv]|];
    split; reflexivity.
Qed.

Lemma emit_appends (w : World) (output_file : str) (l : locals) (st : state) :
  output_file <> [] ->
  open_error w output_file = None ->
  exists st',
    emit w output_file l st = (Ok tt, st') /\
    trace st' = trace st ++ map (EvWrite output_file) (emitted_writes l) /\
    files st' output_file
    = Some (content_of st output_file ++ List.concat (emitted_writes l)) /\
    (forall p, p <> output_file -> files st' p = files st p).
Proof.
  intros Hne Hopen. unfold emit, emitted_writes, content_of.
  destruct output_file as [|c r]; [congruence|]. cbn [truthy].
  set (path := c :: r) in *.
  unfold mbind, open_append, write, mret. rewrite Hopen.
  assert (Hother : forall p, p <> path -> str_eqb p path = false)
    by (intros p Hp; apply str_eqb_neq; exact Hp).
  destruct (server_version l) as [[|a sv]|], (client_version l) as [[|b cv]|];
    cbn [truthy_opt truthy nonempty show_opt trace files];
    eexists; (split; [reflexivity|]);
    cbn [trace files map app List.concat]; rewrite !str_eqb_refl;
    (split; [rewrite <- ?app_assoc; reflexivity|]);
    (split; [rewrite ?app_nil_r, <- ?app_assoc; reflexivity|]);
    intros p Hp; rewrite (Hother p Hp); reflexivity.
Qed.

Lemma read_versions_both (w : World)
    (before_sha crate_path text prev_text cv pv : str) (st : state) :
  before_sha <> null_sha ->
  run_process w (git_show_argv before_sha crate_path) = Exited 0 prev_text ->
  prev_text <> [] ->
  read_text w crate_path = Ok text ->
  toml_loads w text = Ok (Package (Some cv)) ->
  toml_loads w prev_text = Ok (Package (Some pv)) ->
  read_versions w before_sha crate_path st
  = (Ok (Some pv, Some cv),
     after st [EvRead crate_path; EvLoads text;
               EvRun (git_show_argv before_sha crate_path);
               EvLoads prev_text]).
Proof.
  intros Hsha Hgit Hprev Hread Hloads Hloads'. apply str_eqb_neq in Hsha.
  unfold read_versions, mbind.
  rewrite (get_version_declared _ _ _ _ st Hread Hloads).
  rewrite (get_previous_content_exited w before_sha crate_path _ 0%Z prev_text
             Hsha Hgit).
  cbn [Z.eqb truthy_opt]. destruct prev_text as [|c r]; [congruence|].
  cbn [truthy].
  rewrite (get_version_of_content _ crate_path _ _ _ Hloads').
  unfold mret. rewrite !after_after. reflexivity.
Qed.

(** A whole run over an unchanged version: no release, and the version is
    written all the same. *)
Lemma main_unchanged_version (w : World) (st : state)
    (sha out text prev_text v : str) :
  environ w (lit "BEFORE_SHA") = Some sha -> sha <> [] -> sha <> null_sha ->
  environ w (lit "GITHUB_OUTPUT") = Some out -> out <> [] ->
  open_error w out = None ->
  read_text w client_manifest = Ok text ->
  toml_loads w text = Ok (Package (Some v)) -> v <> [] ->
  run_process w (git_show_argv sha client_manifest) = Exited 0 prev_text ->
  prev_text <> [] ->
  toml_loads w prev_text = Ok (Package (Some v)) ->
  exists l st',
    main w st = (Ok l, st') /\
    classify (Some v) (Some v) = NoChange /\
    client_release_needed l = false /\
    client_version l = Some v /\
    files st' out
    = Some (content_of st out
              ++ release_flag_line (lit "server") false
              ++ release_flag_line (lit "client") false
              ++ version_line (lit "client") v).
Proof.
  intros Hsha Hsha0 Hnull Hout Hout0 Hopen Hread Hloads Hv Hgit Hprev Hloads'.
  set (l := {| server_release_needed := false; client_release_needed := false;
               server_version := None; client_version := Some v |}).
  assert (Hloop : exists st1,
             for_each_crate w sha BINARY_CRATES initial_locals st = (Ok l, st1)
             /\ files st1 = files st).
  { unfold BINARY_CRATES, for_each_crate, process_crate. fold client_manifest.
    unfold mbind at 1 2.
    rewrite (read_versions_both _ _ _ _ _ _ _ st Hnull Hgit Hprev Hread Hloads
               Hloads').
    unfold mbind, print, log, mret. cbn beta iota.
    rewrite (record_release_unchanged v initial_locals _ Hv).
    eexists; split; reflexivity. }
  destruct Hloop as [st1 [Hloop Hfiles]].
  unfold main, environ_get. rewrite Hout.
  unfold mbind at 1.
  rewrite (resolve_before_sha_supplied w st sha Hsha Hsha0).
  unfold mbind at 1. rewrite Hloop.
  unfold mbind, print, log. cbn beta iota.
  match goal with
  | |- context [emit w out l ?s] =>
      destruct (emit_appends w out l s Hout0 Hopen)
        as [st2 [Hemit [_ [Hfile _]]]]
  end.
  rewrite Hemit. unfold mret.
  exists l, st2. split; [reflexivity|].
  split; [unfold classify; rewrite compare_versions_same; reflexivity|].
  split; [reflexivity|]. split; [reflexivity|].
  rewrite Hfile. unfold content_of, after. cbn [files]. rewrite Hfiles.
  unfold emitted_writes, l. cbn [server_version client_version nonempty
    server_release_needed client_release_needed].
  destruct v as [|c r]; [congruence|]. cbn [truthy app List.concat].
  rewrite app_nil_r. reflexivity.
Qed.

(** C8: the result file is appended to, what it held before being kept in
    front of the new lines and all other files left alone; each role's
    [<role>_version=] line is written exactly when the role's version
    variable holds a non-empty string, which is the current version of the
    role's artifact whenever that resolved to a non-empty string; and a run
    over an unchanged version writes that line although no release is
    needed. *)
Theorem result_file_appended (w : World) (st : state) :
  (forall (output_file : str) (l : locals),
     output_file <> [] ->
     open_error w output_file = None ->
     exists st',
       emit w output_file l st = (Ok tt, st') /\
       trace st' = trace st ++ map (EvWrite output_file) (emitted_writes l) /\
       files st' output_file
       = Some (content_of st output_file ++ List.concat (emitted_writes l)) /\
       (forall p, p <> output_file -> files st' p = files st p) /\
       writes_version_key (lit "server")
         (map (EvWrite output_file) (emitted_writes l))
       = truthy_opt (server_version l) /\
       writes_version_key (lit "client")
         (map (EvWrite output_file) (emitted_writes l))
       = truthy_opt (client_version l))
  /\
  (forall (release_name : str) (previous current : option str) (l : locals),
     release_name = lit "chatty" \/ release_name = lit "chatty-server" ->
     exists l' st',
       record_release release_name previous current l st = (Ok l', st') /\
       role_version release_name l'
       = if truthy_opt current then current else role_version release_name l)
  /\
  (forall sha out text prev_text v : str,
     environ w (lit "BEFORE_SHA") = Some sha -> sha <> [] -> sha <> null_sha ->
     environ w (lit "GITHUB_OUTPUT") = Some out -> out <> [] ->
     open_error w out = None ->
     read_text w client_manifest = Ok text ->
     toml_loads w text = Ok (Package (Some v)) -> v <> [] ->
     run_process w (git_show_argv sha client_manifest) = Exited 0 prev_text ->
     prev_text <> [] ->
     toml_loads w prev_text = Ok (Package (Some v)) ->
     exists l st',
       main w st = (Ok l, st') /\
       classify (Some v) (Some v) = NoChange /\
       client_release_needed l = false /\
       client_version l = Some v /\
       files st' out
       = Some (content_of st out
                 ++ release_flag_line (lit "server") false
                 ++ release_flag_line (lit "client") false
                 ++ version_line (lit "client") v)).
Proof.
  split; [|split].
  - intros output_file l Hne Hopen.
    destruct (emit_appends w output_file l st Hne Hopen)
      as [st' [He [Ht [Hf Ho]]]].
    destruct (emitted_version_keys output_file l) as [Hs Hc].
    exists st'. repeat split; assumption.
  - intros release_name previous current l. apply record_release_version.
  - intros sha out text prev_text v. apply main_unchanged_version.
Qed.

Lemma result_file_appended_witness :
  (exists st',
     emit world_unchanged (lit "out.txt")
       {| server_release_needed := false; client_release_needed := false;
          server_version := None; client_version := Some (lit "1.0.0") |}
       state_with_output = (Ok tt, st') /\
     files st' (lit "out.txt")
     = Some (lit "earlier=1" ++ newline
               ++ lit "server_release_needed=false" ++ newline
               ++ lit "client_release_needed=false" ++ newline
               ++ lit "client_version=1.0.0" ++ newline))
  /\
  (exists l' st',
     record_release (lit "chatty") (Some (lit "1.0.0")) (Some (lit "1.0.0"))
       initial_locals state_with_output = (Ok l', st') /\
     role_version (lit "chatty") l' = Some (lit "1.0.0"))
  /\
  (exists l st',
     main world_unchanged state_with_output = (Ok l, st') /\
     client_release_needed l = false /\
     files st' (lit "out.txt")
     = Some (lit "earlier=1" ++ newline
               ++ lit "server_release_needed=false" ++ newline
               ++ lit "client_release_needed=false" ++ newline
               ++ lit "client_version=1.0.0" ++ newline)).
Proof.
  split; [|split].
  - destruct (proj1 (result_file_appended world_unchanged state_with_output)
                (lit "out.txt")
                {| server_release_needed := false;
                   client_release_needed := false;
                   server_version := None;
                   client_version := Some (lit "1.0.0") |})
      as [st' [He [_ [Hf _]]]]; [discriminate | reflexivity |].
    exists st'. split; [exact He | exact Hf].
  - apply (proj1 (proj2 (result_file_appended world_unchanged
                           state_with_output))
             (lit "chatty") (Some (lit "1.0.0")) (Some (lit "1.0.0"))
             initial_locals).
    left; reflexivity.
  - destruct (proj2 (proj2 (result_file_appended world_unchanged
                              state_with_output))
                sample_sha (lit "out.txt") (manifest_text (lit "1.0.0"))
                (manifest_text (lit "1.0.0")) (lit "1.0.0"))
      as [l [st' [Hm [_ [Hc [_ Hf]]]]]];
      try reflexivity; try discriminate; try (vm_compute; discriminate).
    exists l, st'. split; [exact Hm|]. split; [exact Hc | exact Hf].
Defined.

(* ------------------------------------------------------------------ *)
(** * Further properties of the script *)

(** ** The comparator as an order *)

Lemma tuple_gt_asym (a b : list Z) : tuple_gt a b = true -> tuple_gt b a = false.
Proof.
  revert b; induction a as [|x a IH]; intros [|y b]; simpl; try congruence.
  rewrite (Z.eqb_sym y x). destruct (Z.eqb_spec x y) as [->|Hne]; [apply IH|].
  rewrite Z.ltb_lt, Z.ltb_ge. lia.
Qed.

Lemma tuple_gt_trans (a b c : list Z) :
  tuple_gt a b = true -> tuple_gt b c = true -> tuple_gt a c = true.
Proof.
  revert b c; induction a as [|x a IH]; intros [|y b] [|z c]; simpl;
    try congruence.
  destruct (Z.eqb_spec x y) as [->|Hxy].
  - destruct (Z.eqb_spec y z) as [->|Hyz]; [apply IH | tauto].
  - destruct (Z.eqb_spec y z) as [->|Hyz].
    + destruct (Z.eqb_spec x z); [congruence | tauto].
    + rewrite !Z.ltb_lt. intros H1 H2.
      destruct (Z.eqb_spec x z); [lia | apply Z.ltb_lt; lia].
Qed.

Lemma tuple_gt_connex (a b : list Z) :
  tuple_gt a b = false -> tuple_gt b a = false -> a = b.
Proof.
  revert b; induction a as [|x a IH]; intros [|y b]; simpl; try congruence.
  rewrite (Z.eqb_sym y x). destruct (Z.eqb_spec x y) as [->|Hne].
  - intros H1 H2. f_equal. apply IH; assumption.
  - rewrite !Z.ltb_ge. lia.
Qed.

Lemma digits_value_not_decimal (p : str) (acc : Z) :
  forallb isdecimal_char p = false -> digits_value acc p = None.
Proof.
  revert acc; induction p as [|c r IH]; intros acc; simpl; [discriminate|].
  unfold isdecimal_char at 1. destruct (decimal_value c); [|reflexivity].
  simpl. apply IH.
Qed.

(** [int] on a component the filter kept. *)
Lemma py_int_kept (p : str) :
  isdigit p = true ->
  py_int p = if convertible_part p then Ok (number_of p) else Raise ValueError.
Proof.
  unfold isdigit, convertible_part, py_int, number_of.
  rewrite andb_true_iff. intros [Hne _].
  destruct p as [|c r]; [discriminate|].
  destruct (forallb isdecimal_char (c :: r)) eqn:Hd.
  - rewrite (digits_value_decimal _ _ Hd). cbn [andb].
    destruct (Nat.leb_spec (List.length (c :: r)) int_max_str_digits) as [H|H].
    + apply Nat.ltb_ge in H. rewrite H. reflexivity.
    + apply Nat.ltb_lt in H. rewrite H. reflexivity.
  - rewrite (digits_value_not_decimal _ _ Hd). reflexivity.
Qed.

Lemma ints_of_parts_closed (parts : list str) :
  ints_of_parts parts
  = if forallb convertible_part (filter isdigit parts)
    then Ok (map number_of (filter isdigit parts))
    else Raise ValueError.
Proof.
  induction parts as [|p rest IH]; simpl; [reflexivity|].
  destruct (isdigit p) eqn:Hp; [|exact IH].
  rewrite (py_int_kept _ Hp). cbn [forallb map].
  destruct (convertible_part p); cbn; [|reflexivity].
  rewrite IH. destruct (forallb convertible_part (filter isdigit rest));
    reflexivity.
Qed.

(** X1: [version_tuple] in closed form.  Components failing [isdigit] are
    left out; if every remaining component is made of decimal digits and is
    within the conversion limit, the result is the numbers they write, in
    order; otherwise [ValueError] is raised. *)
Theorem version_tuple_closed (v : str) :
  version_tuple v
  = if converts v then Ok (kept_numbers v) else Raise ValueError.
Proof. unfold version_tuple. apply ints_of_parts_closed. Qed.

Lemma version_tuple_converts (v : str) :
  converts v = true -> version_tuple v = Ok (kept_numbers v).
Proof. intros H. unfold version_tuple. rewrite ints_of_parts_closed.
  fold (kept_parts v). fold (converts v). rewrite H. reflexivity. Qed.

Lemma version_tuple_fails (v : str) :
  converts v = false -> version_tuple v = Raise ValueError.
Proof. intros H. unfold version_tuple. rewrite ints_of_parts_closed.
  fold (kept_parts v). fold (converts v). rewrite H. reflexivity. Qed.

Lemma compare_versions_converts (p c : str) :
  converts p = true -> converts c = true ->
  compare_versions (Some p) (Some c)
  = Ok (tuple_gt (kept_numbers c) (kept_numbers p)).
Proof.
  intros Hp Hc. rewrite compare_versions_present.
  rewrite (version_tuple_converts _ Hp), (version_tuple_converts _ Hc).
  reflexivity.
Qed.

(** X2: on versions whose kept components all convert, the comparator is a
    strict order on the number sequences: it never reports a bump in both
    directions, bumps chain, and two versions with no bump either way have
    the same numbers. *)
Theorem compare_versions_strict_order (a b c : str) :
  converts a = true -> converts b = true -> converts c = true ->
  (compare_versions (Some a) (Some b) = Ok true ->
   compare_versions (Some b) (Some a) = Ok false) /\
  (compare_versions (Some a) (Some b) = Ok true ->
   compare_versions (Some b) (Some c) = Ok true ->
   compare_versions (Some a) (Some c) = Ok true) /\
  (compare_versions (Some a) (Some b) = Ok false ->
   compare_versions (Some b) (Some a) = Ok false ->
   kept_numbers a = kept_numbers b).
Proof.
  intros Ha Hb Hc.
  rewrite (compare_versions_converts _ _ Ha Hb),
          (compare_versions_converts _ _ Hb Ha),
          (compare_versions_converts _ _ Hb Hc),
          (compare_versions_converts _ _ Ha Hc).
  split; [|split].
  - intros H. injection H as H'. rewrite (tuple_gt_asym _ _ H'). reflexivity.
  - intros H1 H2. injection H1 as H1'. injection H2 as H2'.
    rewrite (tuple_gt_trans _ _ _ H2' H1'). reflexivity.
  - intros H1 H2. injection H1 as H1'. injection H2 as H2'.
    symmetry. apply tuple_gt_connex; assumption.
Qed.

Lemma compare_versions_strict_order_witness :
  (compare_versions (Some (lit "1.9.0")) (Some (lit "1.10.0")) = Ok true ->
   compare_versions (Some (lit "1.10.0")) (Some (lit "1.9.0")) = Ok false) /\
  (compare_versions (Some (lit "1.9.0")) (Some (lit "1.10.0")) = Ok true ->
   compare_versions (Some (lit "1.10.0")) (Some (lit "2.0")) = Ok true ->
   compare_versions (Some (lit "1.9.0")) (Some (lit "2.0")) = Ok true) /\
  (compare_versions (Some (lit "1.9.0")) (Some (lit "1.10.0")) = Ok false ->
   compare_versions (Some (lit "1.10.0")) (Some (lit "1.9.0")) = Ok false ->
   kept_numbers (lit "1.9.0") = kept_numbers (lit "1.10.0")).
Proof.
  apply (compare_versions_strict_order (lit "1.9.0") (lit "1.10.0")
           (lit "2.0")); reflexivity.
Defined.

Lemma str_eqb_sym (a b : str) : str_eqb a b = str_eqb b a.
Proof.
  destruct (str_eqb a b) eqn:H.
  - apply str_eqb_spec in H; subst. symmetry; apply str_eqb_refl.
  - symmetry. apply str_eqb_neq. apply str_eqb_neq in H. congruence.
Qed.

(** X3: when a kept component of either version does not convert, the
    comparator answers by string inequality, and so the same in both
    directions: any two different such strings count as a bump of each
    other. *)
Theorem compare_versions_fallback (p c : str) :
  converts p = false \/ converts c = false ->
  compare_versions (Some p) (Some c) = Ok (negb (str_eqb p c)) /\
  compare_versions (Some c) (Some p) = compare_versions (Some p) (Some c).
Proof.
  intros H. rewrite !compare_versions_present.
  destruct H as [H|H]; rewrite (version_tuple_fails _ H);
    rewrite (str_eqb_sym c p);
    destruct (version_tuple c), (version_tuple p); split; reflexivity.
Qed.

Lemma compare_versions_fallback_witness :
  compare_versions (Some [0xb2]) (Some (lit "1"))
  = Ok (negb (str_eqb [0xb2] (lit "1"))) /\
  compare_versions (Some (lit "1")) (Some [0xb2])
  = compare_versions (Some [0xb2]) (Some (lit "1")).
Proof.
  apply (compare_versions_fallback [0xb2] (lit "1")). left; reflexivity.
Defined.

(** X4: no version is a bump of itself, whatever the string. *)
Theorem compare_versions_irreflexive (v : str) :
  compare_versions (Some v) (Some v) = Ok false.
Proof.
  rewrite compare_versions_present.
  destruct (version_tuple v) as [t|e].
  - rewrite tuple_gt_irrefl. reflexivity.
  - rewrite str_eqb_refl. reflexivity.
Qed.

Lemma split_on_nonempty (sep : char) (s : str) : split_on sep s <> [].
Proof.
  destruct s as [|c r]; simpl; [discriminate|].
  destruct (c =? sep); [discriminate|].
  destruct (split_on sep r); discriminate.
Qed.

Lemma split_on_app (sep : char) (a b : str) :
  split_on sep (a ++ sep :: b) = split_on sep a ++ split_on sep b.
Proof.
  induction a as [|c r IH]; simpl.
  - rewrite N.eqb_refl. reflexivity.
  - destruct (c =? sep); [rewrite IH; reflexivity|].
    rewrite IH. pose proof (split_on_nonempty sep r) as Hne.
    destruct (split_on sep r) as [|h t]; [congruence | reflexivity].
Qed.

(** X5: the comparator's reading of a version is compositional in the
    dots: joining two strings with a dot concatenates the numbers kept from
    each, and the joined string converts exactly when both parts do. *)
Theorem kept_numbers_dot (a b : str) :
  kept_numbers (a ++ dot :: b) = kept_numbers a ++ kept_numbers b /\
  converts (a ++ dot :: b) = converts a && converts b.
Proof.
  unfold kept_numbers, converts, kept_parts.
  rewrite split_on_app, filter_app, map_app, forallb_app. split; reflexivity.
Qed.

(** ** The manifest reader, completely *)

Lemma get_version_run (w : World) (path : str) (content : option str)
    (st : state) :
  get_version w path content st
  = (match manifest_source w path content with
     | Ok text =>
         match toml_loads w text with
         | Ok doc =>
             match package_version doc with
             | Ok v => Ok (Some v)
             | Raise e =>
                 if handles [FileNotFoundError; KeyError] e
                 then Ok None else Raise e
             end
         | Raise e =>
             if handles [FileNotFoundError; KeyError] e
             then Ok None else Raise e
         end
     | Raise e =>
         if handles [FileNotFoundError; KeyError] e then Ok None else Raise e
     end,
     after st (get_version_events w path content)).
Proof.
  unfold get_version, get_version_events, manifest_source.
  run_io. run_io.
  destruct content as [c|]; cbn -[handles].
  - destruct (toml_loads w c) as [doc|e]; cbn -[handles].
    + destruct (package_version doc) as [v|e]; cbn -[handles]; [reflexivity|].
      destruct (handles _ e); reflexivity.
    + destruct (handles _ e); reflexivity.
  - destruct (read_text w path) as [text|e]; cbn -[handles].
    + destruct (toml_loads w text) as [doc|e]; cbn -[handles].
      * destruct (package_version doc) as [v|e]; cbn -[handles];
          [rewrite after_after; reflexivity|].
        destruct (handles _ e); rewrite after_after; reflexivity.
      * destruct (handles _ e); rewrite after_after; reflexivity.
    + destruct (handles _ e); reflexivity.
Qed.

(** X6: [get_version] returns a version exactly when the manifest text is
    available (handed in, or read from the path) and the parsed document
    declares that version in its package table. *)
Theorem get_version_some_iff (w : World) (path : str)
    (content : option str) (st : state) (v : str) :
  fst (get_version w path content st) = Ok (Some v)
  <-> exists text,
        manifest_source w path content = Ok text /\
        toml_loads w text = Ok (Package (Some v)).
Proof.
  rewrite get_version_run. cbn [fst]. split.
  - destruct (manifest_source w path content) as [text|e].
    + destruct (toml_loads w text) as [doc|e] eqn:Hl.
      * destruct doc as [| |[v'|]]; cbn; try discriminate.
        intros H; injection H as ->. exists text; split; [reflexivity|exact Hl].
      * destruct (handles _ e); discriminate.
    + destruct (handles _ e); discriminate.
  - intros [text [-> ->]]. reflexivity.
Qed.

(** X7: [get_version] never raises [FileNotFoundError] or [KeyError] (or a
    subclass): what it raises is an exception of another class, coming from
    reading the file, from the parser, or, as [TypeError], from a
    ["package"] entry that is not a table. *)
Theorem get_version_raises_iff (w : World) (path : str)
    (content : option str) (st : state) (e : exn) :
  fst (get_version w path content st) = Raise e
  <-> handles [FileNotFoundError; KeyError] e = false /\
      (manifest_source w path content = Raise e \/
       exists text,
         manifest_source w path content = Ok text /\
         (toml_loads w text = Raise e \/
          (toml_loads w text = Ok PackageNotTable /\ e = TypeError))).
Proof.
  rewrite get_version_run. cbn [fst]. split.
  - destruct (manifest_source w path content) as [text|e'].
    + destruct (toml_loads w text) as [doc|e'] eqn:Hl.
      * destruct doc as [| |[v'|]]; cbn; try discriminate.
        intros H; injection H as <-.
        split; [reflexivity|]. right. exists text. auto.
      * destruct (handles _ e') eqn:Hh; [discriminate|].
        intros H; injection H as <-.
        split; [exact Hh|]. right. exists text. auto.
    + destruct (handles _ e') eqn:Hh; [discriminate|].
      intros H; injection H as <-. auto.
  - intros [Hh [-> | [text [-> [-> | [-> ->]]]]]];
      rewrite ?Hh; reflexivity.
Qed.

(** X8: the footprint of [get_version]: it reads the file only when no
    content is handed in, runs the parser only on text it obtained, changes
    no file, and issues no other event, whatever it returns or raises. *)
Theorem get_version_footprint (w : World) (path : str)
    (content : option str) (st : state) :
  snd (get_version w path content st)
  = after st (get_version_events w path content).
Proof. rewrite get_version_run. reflexivity. Qed.

(** ** The history fetcher, completely *)

Lemma get_previous_content_run (w : World) (before_sha path : str)
    (st : state) :
  get_previous_content w before_sha path st
  = if str_eqb before_sha null_sha then (Ok None, st)
    else
      (match run_process w (git_show_argv before_sha path) with
       | Exited code out => if (code =? 0)%Z then Ok (Some out) else Ok None
       | Failed e =>
           if isinstance e CalledProcessError then Ok None else Raise e
       end,
       after st [EvRun (git_show_argv before_sha path)]).
Proof.
  unfold get_previous_content.
  destruct (str_eqb before_sha null_sha); [reflexivity|]. run_io.
  destruct (run_process w (git_show_argv before_sha path)) as [code out|e].
  - destruct (code =? 0)%Z; reflexivity.
  - cbn -[isinstance]. rewrite orb_false_r.
    destruct (isinstance e CalledProcessError); reflexivity.
Qed.

(** X9: [get_previous_content] returns content exactly when the commit
    reference is not the all-zero one and [git show] exited with status 0,
    and the content is that run's standard output, unchanged. *)
Theorem get_previous_content_some_iff (w : World) (before_sha path : str)
    (st : state) (out : str) :
  fst (get_previous_content w before_sha path st) = Ok (Some out)
  <-> before_sha <> null_sha /\
      run_process w (git_show_argv before_sha path) = Exited 0 out.
Proof.
  rewrite get_previous_content_run, <- str_eqb_neq.
  destruct (str_eqb before_sha null_sha); cbn [fst].
  - split; [discriminate | intros [H _]; discriminate].
  - destruct (run_process w (git_show_argv before_sha path)) as [code o|e].
    + destruct (Z.eqb_spec code 0) as [->|Hc].
      * split; [intros H; injection H as ->; auto
               | intros [_ H]; injection H as ->; reflexivity].
      * split; [discriminate | intros [_ H]; injection H as Hc' _; congruence].
    + destruct (isinstance e CalledProcessError);
        (split; [discriminate | intros [_ H]; discriminate]).
Qed.

(** X10: the footprint of [get_previous_content]: for a commit reference
    other than the all-zero one it runs [git show <sha>:<path>] exactly once,
    and it does nothing else, whatever it returns or raises. *)
Theorem get_previous_content_footprint (w : World) (before_sha path : str)
    (st : state) :
  before_sha <> null_sha ->
  snd (get_previous_content w before_sha path st)
  = after st [EvRun [lit "git"; lit "show"; before_sha ++ lit ":" ++ path]].
Proof.
  intros H. apply str_eqb_neq in H.
  rewrite get_previous_content_run, H. reflexivity.
Qed.

Lemma get_previous_content_footprint_witness :
  snd (get_previous_content world_without_git sample_sha client_manifest
         empty_state)
  = after empty_state
      [EvRun [lit "git"; lit "show";
              sample_sha ++ lit ":" ++ client_manifest]].
Proof.
  apply (get_previous_content_footprint world_without_git sample_sha
           client_manifest empty_state).
  vm_compute; discriminate.
Defined.

Lemma get_version_some_iff_witness :
  fst (get_version world_unchanged client_manifest None empty_state)
  = Ok (Some (lit "1.0.0")).
Proof.
  apply (proj2 (get_version_some_iff world_unchanged client_manifest None
                  empty_state (lit "1.0.0"))).
  exists (manifest_text (lit "1.0.0")). split; reflexivity.
Defined.

Lemma get_version_raises_iff_witness :
  fst (get_version world_malformed client_manifest None empty_state)
  = Raise TOMLDecodeError.
Proof.
  apply (proj2 (get_version_raises_iff world_malformed client_manifest None
                  empty_state TOMLDecodeError)).
  split; [reflexivity|]. right. exists (lit "[package").
  split; [reflexivity|]. left. reflexivity.
Defined.

Lemma get_previous_content_some_iff_witness :
  fst (get_previous_content world_unchanged sample_sha client_manifest
         empty_state)
  = Ok (Some (manifest_text (lit "1.0.0"))).
Proof.
  apply (proj2 (get_previous_content_some_iff world_unchanged sample_sha
                  client_manifest empty_state (manifest_text (lit "1.0.0")))).
  split; [vm_compute; discriminate | reflexivity].
Defined.

(** ** The base commit, completely *)

Lemma environ_get_truthy (w : World) (key : str) :
  truthy (environ_get w key []) = truthy_opt (environ w key).
Proof. unfold environ_get. destruct (environ w key); reflexivity. Qed.

Lemma resolve_before_sha_run (w : World) (st : state) :
  resolve_before_sha w st
  = if truthy (environ_get w (lit "BEFORE_SHA") [])
    then (Ok (environ_get w (lit "BEFORE_SHA") []), st)
    else (parent_or_null (run_process w git_rev_parse_argv),
          after st [EvRun git_rev_parse_argv]).
Proof.
  unfold resolve_before_sha, parent_or_null.
  destruct (truthy (environ_get w (lit "BEFORE_SHA") [])); [reflexivity|].
  cbn [negb]. run_io.
  destruct (run_process w git_rev_parse_argv) as [code out|e].
  - destruct (code =? 0)%Z; cbn -[strip null_sha]; [|reflexivity].
    destruct (truthy (strip out)); reflexivity.
  - cbn -[isinstance]. rewrite orb_false_r.
    destruct (isinstance e CalledProcessError); reflexivity.
Qed.

Lemma truthy_nonempty (s : str) : truthy s = true <-> s <> [].
Proof. destruct s; simpl; split; congruence. Qed.

(** X11: the base commit [main] works with is never the empty string: it is
    the environment's non-empty [BEFORE_SHA], or the non-empty stripped
    output of [git rev-parse], or the all-zero reference. *)
Theorem resolve_before_sha_nonempty (w : World) (st : state) (sha : str) :
  fst (resolve_before_sha w st) = Ok sha -> sha <> [].
Proof.
  rewrite resolve_before_sha_run.
  destruct (truthy (environ_get w (lit "BEFORE_SHA") [])) eqn:Henv; cbn [fst].
  - intros H; injection H as <-. apply truthy_nonempty; exact Henv.
  - unfold parent_or_null.
    destruct (run_process w git_rev_parse_argv) as [code out|e].
    + destruct (code =? 0)%Z.
      * destruct (truthy (strip out)) eqn:Hs; intros H; injection H as <-;
          [apply truthy_nonempty; exact Hs | discriminate].
      * intros H; injection H as <-; discriminate.
    + destruct (isinstance e CalledProcessError); [|discriminate].
      intros H; injection H as <-; discriminate.
Qed.

Lemma resolve_before_sha_nonempty_witness :
  strip (sample_sha ++ newline) <> [].
Proof.
  apply (resolve_before_sha_nonempty world_parent empty_state
           (strip (sample_sha ++ newline))).
  reflexivity.
Defined.

(** ** What one artifact does to the variables *)

Lemma after_nil (st : state) : after st [] = st.
Proof. destruct st; unfold after; cbn. rewrite app_nil_r. reflexivity. Qed.

Lemma record_release_run (release_name : str)
    (previous current : option str) (l : locals) (st : state) :
  exists evs,
    record_release release_name previous current l st
    = (Ok (recorded release_name previous current l), after st evs).
Proof.
  destruct (compare_versions_returns previous current) as [b Hb].
  unfold record_release, recorded, release_due, version_bumped.
  destruct current as [[|c cs]|]; cbn [truthy_opt truthy andb];
    [ eexists; reflexivity | | eexists; reflexivity ].
  rewrite Hb. clear Hb.
  destruct (str_eqb release_name (lit "chatty"));
    [| destruct (str_eqb release_name (lit "chatty-server")) ];
    destruct previous as [[|p ps]|]; cbn [truthy_opt truthy andb orb];
    run_io; try destruct b; cbn [orb];
    rewrite ?orb_true_r, ?orb_false_r;
    first [ eexists; reflexivity | exists []; rewrite after_nil; reflexivity ].
Qed.

Lemma recorded_monotone (release_name : str) (previous current : option str)
    (l : locals) :
  (server_release_needed l = true ->
   server_release_needed (recorded release_name previous current l) = true) /\
  (client_release_needed l = true ->
   client_release_needed (recorded release_name previous current l) = true).
Proof.
  unfold recorded.
  destruct (truthy_opt current); [|tauto].
  destruct (str_eqb release_name (lit "chatty"));
    [| destruct (str_eqb release_name (lit "chatty-server")) ];
    cbn; split; intros H; rewrite ?H; reflexivity || assumption.
Qed.

(** X12: an artifact never turns a release flag off: a flag that is on
    before [main] handles an artifact is on afterwards, whatever the
    artifact's name and versions. *)
Theorem record_release_monotone (release_name : str)
    (previous current : option str) (l : locals) (st : state) :
  exists l' st',
    record_release release_name previous current l st = (Ok l', st') /\
    (server_release_needed l = true -> server_release_needed l' = true) /\
    (client_release_needed l = true -> client_release_needed l' = true).
Proof.
  destruct (record_release_run release_name previous current l st)
    as [evs Hrun].
  eexists; eexists. split; [exact Hrun|].
  apply recorded_monotone.
Qed.

(** X13: roles do not interfere, and other names are ignored: an artifact
    released as ["chatty"] leaves the server's flag and version alone, one
    released as ["chatty-server"] leaves the client's alone, and an artifact
    under any other release name changes no variable at all. *)
Theorem record_release_roles (release_name : str)
    (previous current : option str) (l : locals) (st : state) :
  exists l' st',
    record_release release_name previous current l st = (Ok l', st') /\
    (release_name = lit "chatty" ->
     server_release_needed l' = server_release_needed l /\
     server_version l' = server_version l) /\
    (release_name = lit "chatty-server" ->
     client_release_needed l' = client_release_needed l /\
     client_version l' = client_version l) /\
    (release_name <> lit "chatty" -> release_name <> lit "chatty-server" ->
     l' = l).
Proof.
  destruct (record_release_run release_name previous current l st)
    as [evs Hrun].
  eexists; eexists. split; [exact Hrun|].
  unfold recorded. destruct (truthy_opt current).
  - split; [|split].
    + intros ->. split; reflexivity.
    + intros ->. split; reflexivity.
    + intros H1 H2. apply str_eqb_neq in H1, H2. rewrite H1, H2. reflexivity.
  - split; [|split]; auto.
Qed.

Lemma record_release_roles_witness :
  exists l' st',
    record_release (lit "chatty-gui") None (Some (lit "1.0.0")) initial_locals
      empty_state = (Ok l', st') /\
    l' = initial_locals.
Proof.
  destruct (record_release_roles (lit "chatty-gui") None (Some (lit "1.0.0"))
              initial_locals empty_state)
    as [l' [st' [Hrun [_ [_ H]]]]].
  exists l', st'. split; [exact Hrun|].
  apply H; vm_compute; discriminate.
Defined.

Lemma recorded_versions (release_name : str) (previous current : option str)
    (l : locals) :
  versions_recorded l ->
  versions_recorded (recorded release_name previous current l).
Proof.
  unfold versions_recorded, recorded. intros [Hs Hc].
  destruct (truthy_opt current) eqn:Hcur; [|tauto].
  destruct (str_eqb release_name (lit "chatty"));
    [| destruct (str_eqb release_name (lit "chatty-server")) ];
    cbn; tauto.
Qed.

(** What an iteration of the loop returns, when it returns. *)
Lemma process_crate_returns (w : World) (before_sha crate_path release_name : str)
    (l l' : locals) (st st' : state) :
  process_crate w before_sha (crate_path, release_name) l st = (Ok l', st') ->
  exists previous current,
    l' = recorded release_name previous current l.
Proof.
  unfold process_crate, mbind.
  destruct (read_versions w before_sha crate_path st)
    as [[[previous current]|e] st1]; [|discriminate].
  unfold print, log.
  match goal with
  | |- context [record_release _ _ _ _ ?s] =>
      destruct (record_release_run release_name previous current l s)
        as [evs ->]
  end.
  intros H; injection H as <- _. exists previous, current. reflexivity.
Qed.

(** X14: over any list of artifacts, the loop of [main] keeps the
    invariant on its variables that a release flag which is on has a
    non-empty version recorded for the same role. *)
Theorem for_each_crate_versions_recorded (w : World) (before_sha : str)
    (crates : list (str * str)) (l l' : locals) (st st' : state) :
  versions_recorded l ->
  for_each_crate w before_sha crates l st = (Ok l', st') ->
  versions_recorded l'.
Proof.
  revert l st. induction crates as [|[crate_path release_name] rest IH];
    intros l st Hinv; cbn [for_each_crate].
  - unfold mret. intros H; injection H as <- _. exact Hinv.
  - unfold mbind.
    destruct (process_crate w before_sha (crate_path, release_name) l st)
      as [[l1|e] st1] eqn:Hstep; [|discriminate].
    destruct (process_crate_returns _ _ _ _ _ _ _ _ Hstep)
      as [previous [current ->]].
    apply IH. apply recorded_versions. exact Hinv.
Qed.

Lemma for_each_crate_versions_recorded_witness :
  versions_recorded
    {| server_release_needed := false; client_release_needed := true;
       server_version := None; client_version := Some (lit "1.2.0") |}.
Proof.
  apply (for_each_crate_versions_recorded world_bumped sample_sha
           BINARY_CRATES initial_locals _ empty_state
           (after empty_state
              [EvRead client_manifest;
               EvLoads (manifest_text (lit "1.2.0"));
               EvRun (git_show_argv sample_sha client_manifest);
               EvLoads (manifest_text (lit "1.1.9"));
               EvPrint (lit "chatty: 1.1.9 -> 1.2.0");
               EvPrint (lit "  " ++ check_mark
                          ++ lit " Client release needed: version bumped")])).
  - split; discriminate.
  - vm_compute. reflexivity.
Defined.

Lemma record_release_monotone_witness :
  exists l' st',
    record_release (lit "chatty") (Some (lit "2.0.0")) (Some (lit "1.0.0"))
      {| server_release_needed := true; client_release_needed := true;
         server_version := None; client_version := None |} empty_state
    = (Ok l', st') /\
    server_release_needed l' = true /\ client_release_needed l' = true.
Proof.
  destruct (record_release_monotone (lit "chatty") (Some (lit "2.0.0"))
              (Some (lit "1.0.0"))
              {| server_release_needed := true; client_release_needed := true;
                 server_version := None; client_version := None |}
              empty_state)
    as [l' [st' [Hrun [Hs Hc]]]].
  exists l', st'. split; [exact Hrun|].
  split; [apply Hs | apply Hc]; reflexivity.
Defined.

(** ** Files *)

Lemma keeps_files_ret {A : Type} (a : A) : keeps_files (mret a).
Proof. intros st; reflexivity. Qed.

Lemma keeps_files_bind {A B : Type} (m : M A) (k : A -> M B) :
  keeps_files m -> (forall a, keeps_files (k a)) -> keeps_files (mbind m k).
Proof.
  intros Hm Hk st. unfold mbind. specialize (Hm st).
  destruct (m st) as [[a|e] st1]; cbn [snd] in *; [|exact Hm].
  rewrite (Hk a st1). exact Hm.
Qed.

Lemma keeps_files_print (text : str) : keeps_files (print text).
Proof. intros st; reflexivity. Qed.

Lemma keeps_files_get_version (w : World) (path : str) (content : option str) :
  keeps_files (get_version w path content).
Proof. intros st. rewrite get_version_run. reflexivity. Qed.

Lemma keeps_files_get_previous_content (w : World) (before_sha path : str) :
  keeps_files (get_previous_content w before_sha path).
Proof.
  intros st. rewrite get_previous_content_run.
  destruct (str_eqb before_sha null_sha); reflexivity.
Qed.

Lemma keeps_files_resolve_before_sha (w : World) :
  keeps_files (resolve_before_sha w).
Proof.
  intros st. rewrite resolve_before_sha_run.
  destruct (truthy _); reflexivity.
Qed.

Lemma keeps_files_record_release (release_name : str)
    (previous current : option str) (l : locals) :
  keeps_files (record_release release_name previous current l).
Proof.
  intros st.
  destruct (record_release_run release_name previous current l st)
    as [evs ->]. reflexivity.
Qed.

Lemma keeps_files_process_crate (w : World) (before_sha : str)
    (crate : str * str) (l : locals) :
  keeps_files (process_crate w before_sha crate l).
Proof.
  destruct crate as [crate_path release_name]. unfold process_crate.
  apply keeps_files_bind.
  - unfold read_versions.
    apply keeps_files_bind; [apply keeps_files_get_version|]. intros cur.
    apply keeps_files_bind; [apply keeps_files_get_previous_content|].
    intros pc. apply keeps_files_bind.
    + destruct (truthy_opt pc);
        [apply keeps_files_get_version | apply keeps_files_ret].
    + intros prev. apply keeps_files_ret.
  - intros [previous current].
    apply keeps_files_bind; [apply keeps_files_print|]. intros _.
    apply keeps_files_record_release.
Qed.

Lemma keeps_files_for_each_crate (w : World) (before_sha : str)
    (crates : list (str * str)) (l : locals) :
  keeps_files (for_each_crate w before_sha crates l).
Proof.
  revert l. induction crates as [|crate rest IH]; intros l;
    cbn [for_each_crate]; [apply keeps_files_ret|].
  apply keeps_files_bind; [apply keeps_files_process_crate | intros l'; apply IH].
Qed.

Lemma emit_changes_only (w : World) (output_file : str) (l : locals)
    (st : state) (p : str) :
  output_file = [] \/ p <> output_file ->
  files (snd (emit w output_file l st)) p = files st p.
Proof.
  intros Hp. unfold emit.
  destruct output_file as [|c r]; [reflexivity|]. cbn [truthy].
  destruct Hp as [Hp|Hp]; [discriminate|]. apply str_eqb_neq in Hp.
  set (path := c :: r) in *.
  unfold mbind, open_append, write, mret.
  destruct (open_error w path); [reflexivity|].
  destruct (truthy_opt (server_version l)), (truthy_opt (client_version l));
    cbn [snd files]; rewrite Hp; reflexivity.
Qed.

Lemma main_run (w : World) (st : state) :
  main w st
  = match resolve_before_sha w st with
    | (Raise e, st0) => (Raise e, st0)
    | (Ok before_sha, st0) =>
        match for_each_crate w before_sha BINARY_CRATES initial_locals st0 with
        | (Raise e, st1) => (Raise e, st1)
        | (Ok l, st1) =>
            match emit w (environ_get w (lit "GITHUB_OUTPUT") []) l
                    (after st1
                       [EvPrint (newline ++ lit "Server release needed: "
                                   ++ show_bool (server_release_needed l));
                        EvPrint (lit "Client release needed: "
                                   ++ show_bool (client_release_needed l))])
            with
            | (Raise e, st2) => (Raise e, st2)
            | (Ok _, st2) => (Ok l, st2)
            end
        end
    end.
Proof.
  unfold main, mbind, print, log, mret.
  destruct (resolve_before_sha w st) as [[sha|e] st0]; [|reflexivity].
  destruct (for_each_crate w sha BINARY_CRATES initial_locals st0)
    as [[l|e] st1]; [|reflexivity].
  rewrite after_after. cbn [app].
  destruct (emit w _ l _) as [[u|e] st2]; reflexivity.
Qed.

(** X15: [main] changes no file but the one named by [GITHUB_OUTPUT], and
    no file at all when that variable is unset or empty, whether it returns
    or raises. *)
Theorem main_changes_only_output (w : World) (st : state) (p : str) :
  environ_get w (lit "GITHUB_OUTPUT") [] = [] \/
  p <> environ_get w (lit "GITHUB_OUTPUT") [] ->
  files (snd (main w st)) p = files st p.
Proof.
  intros Hp. rewrite main_run.
  pose proof (keeps_files_resolve_before_sha w st) as H0.
  destruct (resolve_before_sha w st) as [[sha|e] st0]; cbn [snd] in *;
    [|rewrite H0; reflexivity].
  pose proof (keeps_files_for_each_crate w sha BINARY_CRATES initial_locals st0)
    as H1.
  destruct (for_each_crate w sha BINARY_CRATES initial_locals st0)
    as [[l|e] st1]; cbn [snd] in *; [|rewrite H1, H0; reflexivity].
  match goal with
  | |- context [emit w ?out l ?s] =>
      pose proof (emit_changes_only w out l s p Hp) as H2;
      destruct (emit w out l s) as [[u|e] st2]
  end; cbn [snd] in *; rewrite H2; cbn [after files]; rewrite H1, H0;
    reflexivity.
Qed.

Lemma main_changes_only_output_witness :
  files (snd (main world_unchanged state_with_output)) client_manifest
  = files state_with_output client_manifest.
Proof.
  apply (main_changes_only_output world_unchanged state_with_output
           client_manifest).
  right. vm_compute. discriminate.
Defined.

Lemma for_each_binary_crates (w : World) (before_sha : str) (l : locals)
    (st : state) :
  for_each_crate w before_sha BINARY_CRATES l st
  = process_crate w before_sha (client_manifest, lit "chatty") l st.
Proof.
  unfold BINARY_CRATES, for_each_crate, mbind, mret. fold client_manifest.
  destruct (process_crate w before_sha (client_manifest, lit "chatty") l st)
    as [[l'|e] st']; reflexivity.
Qed.

(** X16: with the crates the script is configured for, a run that
    returns has never asked for a server release nor recorded a server
    version, and what it has appended to the result file is exactly the line
    [server_release_needed=false], the client's flag line and, when a client
    version was recorded, the client's version line: the write of line 115
    never happens. *)
Theorem main_never_releases_server (w : World) (st st' : state) (l : locals) :
  main w st = (Ok l, st') ->
  server_release_needed l = false /\ server_version l = None /\
  (forall out,
     environ w (lit "GITHUB_OUTPUT") = Some out -> out <> [] ->
     files st' out
     = Some (content_of st out
               ++ release_flag_line (lit "server") false
               ++ release_flag_line (lit "client") (client_release_needed l)
               ++ match nonempty (client_version l) with
                  | Some v => version_line (lit "client") v
                  | None => []
                  end)).
Proof.
  intros Hmain. rewrite main_run in Hmain.
  pose proof (keeps_files_resolve_before_sha w st) as F0.
  destruct (resolve_before_sha w st) as [[sha|e] st0]; [|discriminate].
  cbn [snd] in F0.
  rewrite for_each_binary_crates in Hmain.
  pose proof (keeps_files_process_crate w sha (client_manifest, lit "chatty")
                initial_locals st0) as F1.
  destruct (process_crate w sha (client_manifest, lit "chatty")
              initial_locals st0) as [[l1|e] st1] eqn:Hstep; [|discriminate].
  cbn [snd] in F1.
  destruct (emit w _ l1 _) as [[u|e] st2] eqn:Hemit; [|discriminate].
  injection Hmain as -> ->.
  destruct (process_crate_returns _ _ _ _ _ _ _ _ Hstep)
    as [previous [current Hl]].
  assert (Hs : server_release_needed l = false /\ server_version l = None).
  { rewrite Hl. unfold recorded.
    destruct (truthy_opt current); split; reflexivity. }
  destruct Hs as [Hflag Hversion].
  split; [exact Hflag|]. split; [exact Hversion|].
  intros out Hout Hne. unfold environ_get in Hemit. rewrite Hout in Hemit.
  destruct (open_error w out) as [e|] eqn:Hopen.
  - exfalso. unfold emit in Hemit.
    destruct out as [|c r]; [congruence|]. cbn [truthy] in Hemit.
    unfold mbind at 1 in Hemit. unfold open_append in Hemit.
    rewrite Hopen in Hemit. discriminate Hemit.
  - match type of Hemit with
    | emit w out l ?s = _ =>
        destruct (emit_appends w out l s Hne Hopen) as [st2 [He [_ [Hf _]]]]
    end.
    rewrite He in Hemit. injection Hemit as _ <-.
    rewrite Hf. unfold content_of, after. cbn [files]. rewrite F1, F0.
    unfold emitted_writes. rewrite Hflag, Hversion. cbn [nonempty].
    destruct (nonempty (client_version l)); cbn [List.concat app];
      rewrite ?app_nil_r; reflexivity.
Qed.

Lemma main_never_releases_server_witness :
  files (snd (main world_unchanged state_with_output)) (lit "out.txt")
  = Some (content_of state_with_output (lit "out.txt")
            ++ release_flag_line (lit "server") false
            ++ release_flag_line (lit "client") false
            ++ version_line (lit "client") (lit "1.0.0")).
Proof.
  refine (proj2 (proj2 (main_never_releases_server world_unchanged
                          state_with_output
                          (snd (main world_unchanged state_with_output))
                          {| server_release_needed := false;
                             client_release_needed := false;
                             server_version := None;
                             client_version := Some (lit "1.0.0") |} _))
            (lit "out.txt") _ _).
  - vm_compute. reflexivity.
  - reflexivity.
  - discriminate.
Defined.

(** ** Whole runs *)

Lemma recorded_chatty (previous current : option str) (l : locals) :
  recorded (lit "chatty") previous current l
  = if truthy_opt current then
      {| server_release_needed := server_release_needed l;
         client_release_needed :=
           client_release_needed l || release_due previous current;
         server_version := server_version l;
         client_version := current |}
    else l.
Proof. reflexivity. Qed.

Lemma process_crate_run (w : World) (before_sha crate_path release_name : str)
    (previous current : option str) (l : locals) (st st1 : state) :
  read_versions w before_sha crate_path st = (Ok (previous, current), st1) ->
  exists st',
    process_crate w before_sha (crate_path, release_name) l st
    = (Ok (recorded release_name previous current l), st').
Proof.
  intros Hrv. unfold process_crate, mbind. rewrite Hrv.
  unfold print, log.
  match goal with
  | |- context [record_release _ _ _ _ ?s] =>
      destruct (record_release_run release_name previous current l s)
        as [evs ->]
  end.
  eexists; reflexivity.
Qed.

(** A run whose base commit resolves and whose loop returns ends by
    appending the lines for the variables to the result file. *)
Lemma main_after_loop (w : World) (st st0 st1 : state) (sha out : str)
    (l : locals) :
  resolve_before_sha w st = (Ok sha, st0) ->
  for_each_crate w sha BINARY_CRATES initial_locals st0 = (Ok l, st1) ->
  environ w (lit "GITHUB_OUTPUT") = Some out -> out <> [] ->
  open_error w out = None ->
  exists st',
    main w st = (Ok l, st') /\
    files st' out = Some (content_of st out ++ List.concat (emitted_writes l)).
Proof.
  intros Hres Hloop Hout Hne Hopen.
  pose proof (keeps_files_resolve_before_sha w st) as F0.
  pose proof (keeps_files_for_each_crate w sha BINARY_CRATES initial_locals st0)
    as F1.
  rewrite Hres in F0. rewrite Hloop in F1. cbn [snd] in F0, F1.
  rewrite main_run, Hres, Hloop. unfold environ_get. rewrite Hout.
  match goal with
  | |- context [emit w out l ?s] =>
      destruct (emit_appends w out l s Hne Hopen) as [st2 [-> [_ [Hf _]]]]
  end.
  exists st2. split; [reflexivity|].
  rewrite Hf. unfold content_of, after. cbn [files]. rewrite F1, F0.
  reflexivity.
Qed.

Lemma read_versions_null (w : World) (crate_path text cv : str) (st : state) :
  read_text w crate_path = Ok text ->
  toml_loads w text = Ok (Package (Some cv)) ->
  read_versions w null_sha crate_path st
  = (Ok (None, Some cv), after st [EvRead crate_path; EvLoads text]).
Proof.
  intros Hread Hloads. unfold read_versions, mbind.
  rewrite (get_version_declared _ _ _ _ st Hread Hloads).
  rewrite get_previous_content_run, str_eqb_refl. reflexivity.
Qed.

Lemma read_versions_missing (w : World) (before_sha crate_path : str)
    (st : state) (code : Z) (out : str) :
  read_text w crate_path = Raise FileNotFoundError ->
  run_process w (git_show_argv before_sha crate_path) = Exited code out ->
  code <> 0%Z ->
  exists st',
    read_versions w before_sha crate_path st = (Ok (None, None), st').
Proof.
  intros Hread Hgit Hcode. apply Z.eqb_neq in Hcode.
  unfold read_versions, mbind.
  rewrite get_version_run. cbn [manifest_source]. rewrite Hread.
  cbn [handles existsb isinstance exn_eqb orb].
  rewrite get_previous_content_run, Hgit, Hcode.
  destruct (str_eqb before_sha null_sha); eexists; reflexivity.
Qed.

(** X17: a whole run over a manifest that declares a non-empty version now
    and at the base commit: the client's release flag is exactly the
    comparator's verdict on the two versions, the current version is
    recorded, and the result file gains the two flag lines and the client's
    version line behind what it held. *)
Theorem main_compares_versions (w : World) (st : state)
    (sha out text prev_text cv pv : str) (b : bool) :
  environ w (lit "BEFORE_SHA") = Some sha -> sha <> [] -> sha <> null_sha ->
  environ w (lit "GITHUB_OUTPUT") = Some out -> out <> [] ->
  open_error w out = None ->
  read_text w client_manifest = Ok text ->
  toml_loads w text = Ok (Package (Some cv)) -> cv <> [] ->
  run_process w (git_show_argv sha client_manifest) = Exited 0 prev_text ->
  prev_text <> [] ->
  toml_loads w prev_text = Ok (Package (Some pv)) -> pv <> [] ->
  compare_versions (Some pv) (Some cv) = Ok b ->
  exists l st',
    main w st = (Ok l, st') /\
    client_release_needed l = b /\
    client_version l = Some cv /\
    files st' out
    = Some (content_of st out
              ++ release_flag_line (lit "server") false
              ++ release_flag_line (lit "client") b
              ++ version_line (lit "client") cv).
Proof.
  intros Hsha Hsha0 Hnull Hout Hout0 Hopen Hread Hloads Hcv Hgit Hprev
         Hloads' Hpv Hb.
  pose proof (resolve_before_sha_supplied w st sha Hsha Hsha0) as Hres.
  pose proof (read_versions_both _ _ _ _ _ _ _ st Hnull Hgit Hprev Hread
                Hloads Hloads') as Hrv.
  destruct (process_crate_run w sha client_manifest (lit "chatty") _ _
              initial_locals st _ Hrv) as [st1 Hstep].
  rewrite <- for_each_binary_crates in Hstep.
  destruct (main_after_loop w st st st1 sha out _ Hres Hstep Hout Hout0 Hopen)
    as [st' [Hmain Hfile]].
  assert (Hl : recorded (lit "chatty") (Some pv) (Some cv) initial_locals
               = {| server_release_needed := false; client_release_needed := b;
                    server_version := None; client_version := Some cv |}).
  { rewrite recorded_chatty. unfold release_due, version_bumped. rewrite Hb.
    destruct cv as [|c cs]; [congruence|].
    destruct pv as [|p ps]; [congruence|]. reflexivity. }
  rewrite Hl in Hmain, Hfile.
  eexists; exists st'. split; [exact Hmain|].
  split; [reflexivity|]. split; [reflexivity|].
  rewrite Hfile. unfold emitted_writes.
  cbn [server_version client_version server_release_needed
       client_release_needed nonempty].
  destruct cv as [|c cs]; [congruence|]. cbn [truthy List.concat app].
  rewrite ?app_nil_r. reflexivity.
Qed.

Lemma main_compares_versions_witness :
  exists l st',
    main world_bumped state_with_output = (Ok l, st') /\
    client_release_needed l = true /\
    client_version l = Some (lit "1.2.0") /\
    files st' (lit "out.txt")
    = Some (content_of state_with_output (lit "out.txt")
              ++ release_flag_line (lit "server") false
              ++ release_flag_line (lit "client") true
              ++ version_line (lit "client") (lit "1.2.0")).
Proof.
  apply (main_compares_versions world_bumped state_with_output sample_sha
           (lit "out.txt") (manifest_text (lit "1.2.0"))
           (manifest_text (lit "1.1.9")) (lit "1.2.0") (lit "1.1.9") true);
    try reflexivity; try discriminate; vm_compute; discriminate.
Defined.

Lemma resolve_before_sha_failed_parent (w : World) (st : state)
    (code : Z) (out : str) :
  nonempty (environ w (lit "BEFORE_SHA")) = None ->
  run_process w git_rev_parse_argv = Exited code out ->
  code <> 0%Z ->
  resolve_before_sha w st = (Ok null_sha, after st [EvRun git_rev_parse_argv]).
Proof.
  intros Hno Hrun Hcode. apply Z.eqb_neq in Hcode.
  rewrite resolve_before_sha_run, environ_get_truthy.
  replace (truthy_opt (environ w (lit "BEFORE_SHA"))) with false
    by (destruct (environ w (lit "BEFORE_SHA")) as [[|c r]|];
        cbn in Hno; try reflexivity; discriminate).
  rewrite Hrun. unfold parent_or_null. rewrite Hcode. reflexivity.
Qed.

(** X18: the first commit of a repository.  With no base commit in the
    environment and [git rev-parse HEAD^] failing, a manifest that declares
    a non-empty version makes the run ask for a client release and append
    the flag lines and the version line to the result file. *)
Theorem main_first_commit (w : World) (st : state) (out text cv : str)
    (code : Z) (parent : str) :
  nonempty (environ w (lit "BEFORE_SHA")) = None ->
  run_process w git_rev_parse_argv = Exited code parent -> code <> 0%Z ->
  environ w (lit "GITHUB_OUTPUT") = Some out -> out <> [] ->
  open_error w out = None ->
  read_text w client_manifest = Ok text ->
  toml_loads w text = Ok (Package (Some cv)) -> cv <> [] ->
  exists l st',
    main w st = (Ok l, st') /\
    client_release_needed l = true /\
    client_version l = Some cv /\
    files st' out
    = Some (content_of st out
              ++ release_flag_line (lit "server") false
              ++ release_flag_line (lit "client") true
              ++ version_line (lit "client") cv).
Proof.
  intros Hno Hrun Hcode Hout Hout0 Hopen Hread Hloads Hcv.
  pose proof (resolve_before_sha_failed_parent w st code parent Hno Hrun Hcode)
    as Hres.
  pose proof (read_versions_null w client_manifest text cv
                (after st [EvRun git_rev_parse_argv]) Hread Hloads) as Hrv.
  destruct (process_crate_run w null_sha client_manifest (lit "chatty") _ _
              initial_locals _ _ Hrv) as [st1 Hstep].
  rewrite <- for_each_binary_crates in Hstep.
  destruct (main_after_loop w st _ st1 null_sha out _ Hres Hstep Hout Hout0
              Hopen) as [st' [Hmain Hfile]].
  assert (Hl : recorded (lit "chatty") None (Some cv) initial_locals
               = {| server_release_needed := false;
                    client_release_needed := true;
                    server_version := None; client_version := Some cv |}).
  { rewrite recorded_chatty. unfold release_due.
    destruct cv as [|c cs]; [congruence|]. reflexivity. }
  rewrite Hl in Hmain, Hfile.
  eexists; exists st'. split; [exact Hmain|].
  split; [reflexivity|]. split; [reflexivity|].
  rewrite Hfile. unfold emitted_writes.
  cbn [server_version client_version server_release_needed
       client_release_needed nonempty].
  destruct cv as [|c cs]; [congruence|]. cbn [truthy List.concat app].
  rewrite ?app_nil_r. reflexivity.
Qed.

Lemma main_first_commit_witness :
  exists l st',
    main world_first_commit state_with_output = (Ok l, st') /\
    client_release_needed l = true /\
    client_version l = Some (lit "0.1.0") /\
    files st' (lit "out.txt")
    = Some (content_of state_with_output (lit "out.txt")
              ++ release_flag_line (lit "server") false
              ++ release_flag_line (lit "client") true
              ++ version_line (lit "client") (lit "0.1.0")).
Proof.
  apply (main_first_commit world_first_commit state_with_output
           (lit "out.txt") (manifest_text (lit "0.1.0")) (lit "0.1.0")
           128%Z []);
    try reflexivity; discriminate.
Defined.

(** X19: a manifest that is missing now and unknown at the base commit is
    no error: the run returns with all variables as they started, and the
    result file gains the two flag lines, both [false], and no version
    line. *)
Theorem main_missing_manifest (w : World) (st : state) (sha out : str)
    (code : Z) (shown : str) :
  environ w (lit "BEFORE_SHA") = Some sha -> sha <> [] ->
  run_process w (git_show_argv sha client_manifest) = Exited code shown ->
  code <> 0%Z ->
  environ w (lit "GITHUB_OUTPUT") = Some out -> out <> [] ->
  open_error w out = None ->
  read_text w client_manifest = Raise FileNotFoundError ->
  exists st',
    main w st = (Ok initial_locals, st') /\
    files st' out
    = Some (content_of st out
              ++ release_flag_line (lit "server") false
              ++ release_flag_line (lit "client") false).
Proof.
  intros Hsha Hsha0 Hgit Hcode Hout Hout0 Hopen Hread.
  pose proof (resolve_before_sha_supplied w st sha Hsha Hsha0) as Hres.
  destruct (read_versions_missing w sha client_manifest st code shown Hread
              Hgit Hcode) as [st0 Hrv].
  destruct (process_crate_run w sha client_manifest (lit "chatty") _ _
              initial_locals _ _ Hrv) as [st1 Hstep].
  rewrite <- for_each_binary_crates in Hstep.
  destruct (main_after_loop w st _ st1 sha out _ Hres Hstep Hout Hout0 Hopen)
    as [st' [Hmain Hfile]].
  change (recorded (lit "chatty") None None initial_locals)
    with initial_locals in Hmain, Hfile.
  exists st'. split; [exact Hmain|].
  rewrite Hfile. unfold emitted_writes.
  cbn [server_version client_version server_release_needed
       client_release_needed nonempty initial_locals List.concat app].
  rewrite ?app_nil_r. reflexivity.
Qed.

Lemma main_missing_manifest_witness :
  exists st',
    main world_no_manifest state_with_output = (Ok initial_locals, st') /\
    files st' (lit "out.txt")
    = Some (content_of state_with_output (lit "out.txt")
              ++ release_flag_line (lit "server") false
              ++ release_flag_line (lit "client") false).
Proof.
  apply (main_missing_manifest world_no_manifest state_with_output sample_sha
           (lit "out.txt") 128%Z []);
    try reflexivity; discriminate.
Defined.

(** ** Runs that cannot fail *)

Lemma get_version_well_formed (w : World) (path : str) (content : option str)
    (st : state) :
  (forall text, manifest_source w path content = Ok text ->
                well_formed w text) ->
  (forall e, manifest_source w path content = Raise e ->
             e = FileNotFoundError) ->
  exists v, fst (get_version w path content st) = Ok v.
Proof.
  intros Hwf Hmiss. rewrite get_version_run. cbn [fst].
  destruct (manifest_source w path content) as [text|e].
  - destruct (Hwf text eq_refl) as [doc [-> Hdoc]].
    destruct doc as [| |[v|]]; cbn; try (eexists; reflexivity). congruence.
  - rewrite (Hmiss e eq_refl). eexists; reflexivity.
Qed.

Lemma emit_returns (w : World) (output_file : str) (l : locals) (st : state) :
  open_error w output_file = None ->
  exists st', emit w output_file l st = (Ok tt, st').
Proof.
  intros Hopen. destruct output_file as [|c r].
  - eexists; reflexivity.
  - destruct (emit_appends w (c :: r) l st) as [st' [H _]];
      [discriminate | exact Hopen |]. exists st'; exact H.
Qed.

(** X20: a run completes without raising whenever every [git] call runs
    to an exit status, the working tree's manifest is absent or well formed,
    whatever [git show] prints for it is well formed, and the result file,
    if one is named, can be opened. *)
Theorem main_returns (w : World) (st : state) :
  (forall argv, exists code out, run_process w argv = Exited code out) ->
  (forall text, read_text w client_manifest = Ok text -> well_formed w text) ->
  (forall e, read_text w client_manifest = Raise e -> e = FileNotFoundError) ->
  (forall sha out,
     run_process w (git_show_argv sha client_manifest) = Exited 0 out ->
     well_formed w out) ->
  open_error w (environ_get w (lit "GITHUB_OUTPUT") []) = None ->
  exists l st', main w st = (Ok l, st').
Proof.
  intros Hgit Hcur Hmiss Hprev Hopen. rewrite main_run.
  (* the base commit *)
  assert (Hres : exists sha st0, resolve_before_sha w st = (Ok sha, st0)).
  { rewrite resolve_before_sha_run. destruct (truthy _); [eauto|].
    destruct (Hgit git_rev_parse_argv) as [code [out ->]].
    unfold parent_or_null. destruct (code =? 0)%Z; eauto. }
  destruct Hres as [sha [st0 ->]].
  (* the two versions *)
  assert (Hrv : exists previous current st1,
             read_versions w sha client_manifest st0
             = (Ok (previous, current), st1)).
  { unfold read_versions, mbind.
    destruct (get_version_well_formed w client_manifest None st0 Hcur Hmiss)
      as [current Hc].
    destruct (get_version w client_manifest None st0) as [r st1].
    cbn [fst] in Hc. subst r.
    rewrite get_previous_content_run.
    destruct (str_eqb sha null_sha);
      [do 3 eexists; reflexivity|].
    destruct (Hgit (git_show_argv sha client_manifest)) as [code [out Hrun]].
    rewrite Hrun. destruct (Z.eqb_spec code 0) as [->|Hcode];
      [|do 3 eexists; reflexivity].
    cbn [truthy_opt]. destruct (truthy out);
      [|do 3 eexists; reflexivity].
    destruct (get_version_well_formed w client_manifest (Some out)
                (after st1 [EvRun (git_show_argv sha client_manifest)]))
      as [previous Hp].
    - intros text Ht. injection Ht as <-. exact (Hprev sha out Hrun).
    - intros e He. discriminate He.
    - destruct (get_version w client_manifest (Some out) _) as [r st2].
      cbn [fst] in Hp. subst r. do 3 eexists; reflexivity. }
  destruct Hrv as [previous [current [st1 Hrv]]].
  destruct (process_crate_run w sha client_manifest (lit "chatty") _ _
              initial_locals _ _ Hrv) as [st2 Hstep].
  rewrite for_each_binary_crates, Hstep.
  match goal with
  | |- context [emit w ?out ?l ?s] =>
      destruct (emit_returns w out l s Hopen) as [st3 ->]
  end.
  eauto.
Qed.

Lemma main_returns_witness :
  exists l st', main world_bumped state_with_output = (Ok l, st').
Proof.
  apply (main_returns world_bumped state_with_output).
  - intros argv. exists 0%Z, (manifest_text (lit "1.1.9")). reflexivity.
  - intros text H. injection H as <-.
    exists (Package (Some (lit "1.2.0"))). split; [reflexivity|discriminate].
  - intros e H. discriminate H.
  - intros sha out H. injection H as <-.
    exists (Package (Some (lit "1.1.9"))). split; [reflexivity|discriminate].
  - reflexivity.
Defined.

(* ------------------------------------------------------------------ *)
(** * The translation audit *)

(** ** Stripping *)

Lemma lstrip_head (s : str) (c : char) (r : str) :
  lstrip s = c :: r -> isspace_char c = false.
Proof.
  induction s as [|x s IH]; simpl; [discriminate|].
  destruct (isspace_char x) eqn:Hx; [exact IH|].
  intros H; injection H as <- _. exact Hx.
Qed.

Lemma lstrip_decompose (s : str) :
  exists ws, s = ws ++ lstrip s /\ blank ws = true.
Proof.
  induction s as [|x s [ws [Hs Hws]]]; simpl.
  - exists []. split; reflexivity.
  - destruct (isspace_char x) eqn:Hx.
    + exists (x :: ws). split; [simpl; congruence|].
      simpl. rewrite Hx. exact Hws.
    + exists []. split; reflexivity.
Qed.

Lemma lstrip_nonblank_head (c : char) (r : str) :
  isspace_char c = false -> lstrip (c :: r) = c :: r.
Proof. intros H. simpl. rewrite H. reflexivity. Qed.

Lemma lstrip_blank_app (ws s : str) :
  blank ws = true -> lstrip (ws ++ s) = lstrip s.
Proof.
  induction ws as [|x ws IH]; simpl; [reflexivity|].
  rewrite andb_true_iff. intros [-> H]. apply IH; exact H.
Qed.

Lemma lstrip_blank (ws : str) : blank ws = true -> lstrip ws = [].
Proof.
  intros H. rewrite <- (app_nil_r ws). rewrite (lstrip_blank_app _ _ H).
  reflexivity.
Qed.

Lemma lstrip_app_nonblank (a : str) (c : char) (r : str) :
  isspace_char c = false -> lstrip (a ++ c :: r) = lstrip a ++ c :: r.
Proof.
  intros Hc. induction a as [|x a IH]; simpl.
  - rewrite Hc. reflexivity.
  - destruct (isspace_char x); [exact IH | reflexivity].
Qed.

Lemma strip_rstrip (s : str) : strip s = rstrip (lstrip s).
Proof. reflexivity. Qed.

Lemma blank_rev (ws : str) : blank ws = true -> blank (rev ws) = true.
Proof.
  unfold blank. rewrite !forallb_forall. intros H x Hx.
  apply H. apply in_rev. exact Hx.
Qed.

Lemma rstrip_blank (ws : str) : blank ws = true -> rstrip ws = [].
Proof.
  intros H. unfold rstrip. rewrite (lstrip_blank _ (blank_rev _ H)).
  reflexivity.
Qed.

Lemma rstrip_app_nonblank (a : str) (c : char) (r : str) :
  isspace_char c = false -> rstrip (a ++ c :: r) = a ++ c :: rstrip r.
Proof.
  intros Hc. unfold rstrip.
  replace (rev (a ++ c :: r)) with (rev r ++ c :: rev a).
  - rewrite (lstrip_app_nonblank _ _ _ Hc). rewrite rev_app_distr. simpl.
    rewrite rev_involutive, <- app_assoc. reflexivity.
  - rewrite rev_app_distr. simpl. rewrite <- app_assoc. reflexivity.
Qed.

Lemma rstrip_decompose (s : str) :
  exists ws, s = rstrip s ++ ws /\ blank ws = true.
Proof.
  unfold rstrip. destruct (lstrip_decompose (rev s)) as [v [Hr Hv]].
  exists (rev v). split; [|apply blank_rev; exact Hv].
  rewrite <- rev_app_distr, <- Hr, rev_involutive. reflexivity.
Qed.

Lemma rstrip_last (s a : str) (c : char) :
  rstrip s = a ++ [c] -> isspace_char c = false.
Proof.
  unfold rstrip. intros H.
  assert (Hl : lstrip (rev s) = c :: rev a).
  { rewrite <- (rev_involutive (lstrip (rev s))), H, rev_app_distr.
    reflexivity. }
  apply (lstrip_head _ _ _ Hl).
Qed.

Lemma strip_head (s : str) (c : char) (r : str) :
  strip s = c :: r -> isspace_char c = false.
Proof.
  rewrite strip_rstrip. intros H.
  destruct (rstrip_decompose (lstrip s)) as [ws [Hs _]].
  rewrite H in Hs. simpl in Hs. apply (lstrip_head s c _ Hs).
Qed.

(** A string that starts and ends with characters that are not blank is
    its own [strip]. *)
Lemma strip_fixed (k : str) (c d : char) (r a : str) :
  k = c :: r -> k = a ++ [d] ->
  isspace_char c = false -> isspace_char d = false ->
  strip k = k.
Proof.
  intros Hk Hk' Hc Hd. rewrite strip_rstrip.
  rewrite Hk at 1. rewrite (lstrip_nonblank_head _ _ Hc), <- Hk.
  rewrite Hk' at 1. rewrite (rstrip_app_nonblank _ _ _ Hd).
  rewrite Hk'. reflexivity.
Qed.

Lemma nonempty_ends (k : str) :
  k <> [] -> (exists c r, k = c :: r) /\ (exists a d, k = a ++ [d]).
Proof.
  intros H. split.
  - destruct k as [|c r]; [congruence | eauto].
  - destruct (exists_last H) as [a [d Hk]]. eauto.
Qed.

Lemma strip_idempotent (s : str) : strip (strip s) = strip s.
Proof.
  destruct (strip s) as [|c r] eqn:Hs; [reflexivity|].
  destruct (nonempty_ends (c :: r)) as [_ [a [d Hk]]]; [discriminate|].
  apply (strip_fixed (c :: r) c d r a eq_refl Hk).
  - apply (strip_head s c r Hs).
  - apply (rstrip_last (lstrip s) a d). rewrite <- strip_rstrip, Hs. exact Hk.
Qed.

(** ** The keys of a locale file *)

Lemma contains_app (c : char) (a b : str) :
  contains c (a ++ b) = contains c a || contains c b.
Proof. unfold contains. apply existsb_app. Qed.

Lemma contains_before_first (sep : char) (s : str) :
  contains sep (before_first sep s) = false.
Proof.
  induction s as [|c r IH]; simpl; [reflexivity|].
  destruct (N.eqb_spec c sep) as [->|Hne]; [reflexivity|].
  simpl. rewrite IH, orb_false_r. apply N.eqb_neq. congruence.
Qed.

Lemma before_first_app (sep : char) (a r : str) :
  contains sep a = false -> before_first sep (a ++ sep :: r) = a.
Proof.
  induction a as [|c a IH]; simpl.
  - rewrite N.eqb_refl. reflexivity.
  - rewrite orb_false_iff. intros [Hc Ha].
    rewrite N.eqb_sym, Hc, (IH Ha). reflexivity.
Qed.

Lemma contains_blank (c : char) (ws : str) :
  isspace_char c = false -> blank ws = true -> contains c ws = false.
Proof.
  intros Hc. induction ws as [|x ws IH]; simpl; [reflexivity|].
  rewrite andb_true_iff. intros [Hx Hws]. rewrite (IH Hws), orb_false_r.
  apply N.eqb_neq. intros ->. congruence.
Qed.

Lemma contains_sub (c : char) (a s b : str) :
  contains c (a ++ s ++ b) = false -> contains c s = false.
Proof.
  rewrite !contains_app, !orb_false_iff. tauto.
Qed.

(** X21: a key taken from a line of a locale file is never empty, has no
    blank at either end, contains no colon and does not start with [#]. *)
Theorem line_key_shape (raw_line key : str) :
  line_key raw_line = Some key ->
  key <> [] /\ strip key = key /\ contains colon key = false /\
  starts_with [hash_sign] key = false.
Proof.
  unfold line_key.
  destruct (strip raw_line) as [|h line] eqn:Hline; [discriminate|].
  cbn [truthy negb orb].
  destruct (starts_with [hash_sign] (h :: line)) eqn:Hhash; [discriminate|].
  destruct (contains colon (h :: line)); [|discriminate]. cbn [negb].
  destruct (strip (before_first colon (h :: line))) as [|c r] eqn:Hkey;
    [discriminate|].
  cbn [truthy negb]. intros H; injection H as <-.
  split; [discriminate|]. split; [|split].
  - rewrite <- Hkey. apply strip_idempotent.
  - rewrite <- Hkey. rewrite strip_rstrip.
    destruct (lstrip_decompose (before_first colon (h :: line)))
      as [ws [Hb _]].
    destruct (rstrip_decompose (lstrip (before_first colon (h :: line))))
      as [ws' [Hl _]].
    pose proof (contains_before_first colon (h :: line)) as Hno.
    rewrite Hb, Hl in Hno. apply (contains_sub _ _ _ _ Hno).
  - (* the key starts as the line does *)
    pose proof (strip_head _ _ _ Hline) as Hh.
    cbn [before_first] in Hkey.
    destruct (h =? colon) eqn:Hc; [discriminate Hkey|].
    rewrite strip_rstrip, (lstrip_nonblank_head _ _ Hh) in Hkey.
    destruct (rstrip_decompose (h :: before_first colon line)) as [ws [Hr _]].
    rewrite Hkey in Hr. injection Hr as -> _.
    cbn [starts_with] in *. rewrite andb_true_r in *. exact Hhash.
Qed.

Lemma line_key_shape_witness :
  lit "app.title" <> [] /\ strip (lit "app.title") = lit "app.title" /\
  contains colon (lit "app.title") = false /\
  starts_with [hash_sign] (lit "app.title") = false.
Proof.
  apply (line_key_shape (lit "  app.title : Chatty: a client  ")
           (lit "app.title")).
  reflexivity.
Defined.

(** X22: every line that holds such a key before its first colon declares
    it: whatever the indentation, the blanks before the colon and the text
    after it, the line's key is the key. *)
Theorem line_key_found (indent key gap rest : str) :
  key <> [] -> strip key = key -> contains colon key = false ->
  starts_with [hash_sign] key = false ->
  blank indent = true -> blank gap = true ->
  line_key (indent ++ key ++ gap ++ colon :: rest) = Some key.
Proof.
  intros Hne Hstrip Hcolon Hhash Hindent Hgap.
  destruct (nonempty_ends key Hne) as [[c [r Hk]] [a [d Hk']]].
  assert (Hc : isspace_char c = false)
    by (apply (strip_head key c r); rewrite Hstrip; exact Hk).
  assert (Hd : isspace_char d = false)
    by (apply (rstrip_last (lstrip key) a d);
        rewrite <- strip_rstrip, Hstrip; exact Hk').
  assert (Hline : strip (indent ++ key ++ gap ++ colon :: rest)
                  = key ++ gap ++ colon :: rstrip rest).
  { rewrite strip_rstrip, (lstrip_blank_app _ _ Hindent).
    rewrite Hk at 1. cbn [app]. rewrite (lstrip_nonblank_head _ _ Hc).
    rewrite app_comm_cons, <- Hk, app_assoc.
    rewrite rstrip_app_nonblank by reflexivity.
    rewrite <- app_assoc. reflexivity. }
  unfold line_key. rewrite Hline.
  assert (Htruthy : truthy (key ++ gap ++ colon :: rstrip rest) = true)
    by (rewrite Hk; reflexivity).
  assert (Hstart : starts_with [hash_sign] (key ++ gap ++ colon :: rstrip rest)
                   = false)
    by (rewrite Hk in Hhash |- *; exact Hhash).
  rewrite Htruthy, Hstart. cbn [negb orb].
  rewrite app_assoc, contains_app. cbn [contains existsb].
  rewrite N.eqb_refl, orb_true_r. cbn [negb].
  rewrite before_first_app
    by (rewrite contains_app, Hcolon,
          (contains_blank colon gap eq_refl Hgap); reflexivity).
  assert (Hkey : strip (key ++ gap) = key).
  { rewrite strip_rstrip. rewrite Hk at 1. cbn [app].
    rewrite (lstrip_nonblank_head _ _ Hc), app_comm_cons, <- Hk.
    rewrite Hk' at 1. rewrite <- app_assoc. cbn [app].
    rewrite (rstrip_app_nonblank _ _ _ Hd), (rstrip_blank _ Hgap).
    symmetry. exact Hk'. }
  rewrite Hkey. rewrite Hk. reflexivity.
Qed.

Lemma line_key_found_witness :
  line_key (lit "    " ++ lit "menu.file" ++ lit " " ++ colon :: lit " File")
  = Some (lit "menu.file").
Proof.
  apply (line_key_found (lit "    ") (lit "menu.file") (lit " ") (lit " File"));
    try reflexivity. discriminate.
Defined.

Lemma set_mem_In (k : str) (s : list str) : set_mem k s = true <-> In k s.
Proof.
  unfold set_mem. rewrite existsb_exists. split.
  - intros [x [Hx Heq]]. apply str_eqb_spec in Heq. subst. exact Hx.
  - intros H. exists k. split; [exact H | apply str_eqb_refl].
Qed.

Lemma set_add_In (k x : str) (s : list str) :
  In x (set_add k s) <-> x = k \/ In x s.
Proof.
  unfold set_add. destruct (set_mem k s) eqn:Hm.
  - apply set_mem_In in Hm. split; [auto | intros [->|H]; assumption].
  - rewrite in_app_iff. simpl. split; [intros [H|[H|[]]]; auto | intros [H|H]; auto].
Qed.

Lemma set_add_NoDup (k : str) (s : list str) : NoDup s -> NoDup (set_add k s).
Proof.
  intros H. unfold set_add. destruct (set_mem k s) eqn:Hm; [exact H|].
  assert (Hk : ~ In k s).
  { intros Hin. apply set_mem_In in Hin. congruence. }
  clear Hm. induction H as [|x l Hx Hl IH]; simpl.
  - constructor; [intros [] | constructor].
  - constructor.
    + rewrite in_app_iff. simpl. intros [H|[H|[]]]; [auto|].
      subst. apply Hk. left; reflexivity.
    + apply IH. intros Hin. apply Hk. right; exact Hin.
Qed.

Lemma keys_of_lines_spec (lines : list str) (keys : list str) :
  NoDup keys ->
  NoDup (keys_of_lines lines keys) /\
  forall k, In k (keys_of_lines lines keys)
            <-> In k keys \/ exists line, In line lines /\ line_key line = Some k.
Proof.
  revert keys. induction lines as [|l rest IH]; intros keys Hnd; simpl.
  - split; [exact Hnd|]. intros k. split; [auto | intros [H|[x [[] _]]]; exact H].
  - destruct (line_key l) as [key|] eqn:Hl.
    + destruct (IH (set_add key keys) (set_add_NoDup key keys Hnd))
        as [Hnd' Hin]. split; [exact Hnd'|]. intros k. rewrite Hin, set_add_In.
      split.
      * intros [[->|H]|[x [Hx Hk]]]; eauto.
      * intros [H|[x [[->|Hx] Hk]]]; eauto.
        left. left. congruence.
    + destruct (IH keys Hnd) as [Hnd' Hin]. split; [exact Hnd'|].
      intros k. rewrite Hin. split.
      * intros [H|[x [Hx Hk]]]; eauto.
      * intros [H|[x [[->|Hx] Hk]]]; eauto. congruence.
Qed.

(** X23: [parse_flat_yaml_keys] reads the file once and returns the keys
    its lines declare: a key is in the result exactly when some line of the
    file has it as its key, each key appears once however many lines declare
    it, and an error of opening or reading the file is raised unchanged. *)
Theorem parse_flat_yaml_keys_spec (w : World) (file_path : str) (st : state) :
  (forall text, read_text w file_path = Ok text ->
     exists keys,
       parse_flat_yaml_keys w file_path st
       = (Ok keys, after st [EvRead file_path]) /\
       NoDup keys /\
       forall k, In k keys
                 <-> exists line,
                       In line (file_lines text) /\ line_key line = Some k) /\
  (forall e, read_text w file_path = Raise e ->
     parse_flat_yaml_keys w file_path st
     = (Raise e, after st [EvRead file_path])).
Proof.
  unfold parse_flat_yaml_keys. run_io. split.
  - intros text ->. cbn beta iota.
    destruct (keys_of_lines_spec (file_lines text) [] (NoDup_nil _))
      as [Hnd Hin].
    eexists. split; [reflexivity|]. split; [exact Hnd|].
    intros k. rewrite Hin. split; [intros [[]|H]; exact H | auto].
  - intros e ->. reflexivity.
Qed.

Lemma parse_flat_yaml_keys_spec_witness :
  exists keys,
    parse_flat_yaml_keys world_locale (lit "en.yml") empty_state
    = (Ok keys, after empty_state [EvRead (lit "en.yml")]) /\
    NoDup keys /\
    forall k, In k keys
              <-> exists line,
                    In line (file_lines locale_text) /\ line_key line = Some k.
Proof.
  apply (proj1 (parse_flat_yaml_keys_spec world_locale (lit "en.yml")
                  empty_state) locale_text).
  reflexivity.
Defined.

(** ** Listing *)

Lemma print_items_run (items : list str) (st : state) :
  print_items items st
  = (Ok tt, after st (map (fun key => EvPrint (lit "- " ++ key)) items)).
Proof.
  revert st. induction items as [|k rest IH]; intros st; simpl.
  - unfold mret. rewrite after_nil. reflexivity.
  - unfold mbind, print, log. rewrite IH, after_after. reflexivity.
Qed.

Lemma print_list_run (title : str) (items : list str) (limit : Z)
    (st : state) :
  print_list title items limit st
  = (Ok tt,
     after st
       (EvPrint (newline ++ title ++ lit ": " ++ show_nat (List.length items))
        :: map (fun key => EvPrint (lit "- " ++ key))
               (firstn (slice_end (List.length items) limit) items)
        ++ if (limit <? Z.of_nat (List.length items))%Z
           then [EvPrint (lit "... ("
                            ++ show_int (Z.of_nat (List.length items) - limit)
                            ++ lit " more)")]
           else [])).
Proof.
  unfold print_list, mbind, print, log. rewrite print_items_run.
  destruct (limit <? Z.of_nat (List.length items))%Z; unfold mret;
    rewrite !after_after; cbn [app]; rewrite ?app_nil_r; reflexivity.
Qed.



(** ** The report *)

Lemma insert_sorted_In (k x : str) (l : list str) :
  In x (insert_sorted k l) <-> x = k \/ In x l.
Proof.
  induction l as [|h t IH]; simpl.
  - split; [intros [H|[]]; auto | intros [H|[]]; auto].
  - destruct (str_leb k h); simpl; [split; intros [H|H]; auto|].
    rewrite IH. split.
    + intros [H|[H|H]]; auto.
    + intros [H|[H|H]]; auto.
Qed.

Lemma sorted_In (x : str) (l : list str) : In x (sorted l) <-> In x l.
Proof.
  induction l as [|h t IH]; simpl; [tauto|].
  rewrite insert_sorted_In, IH. split; intros [H|H]; auto.
Qed.

Lemma dict_append_get (d : dict (list str)) (name key n : str) :
  truthy_list (dict_get (dict_append d name key) n [])
  = truthy_list (dict_get d n []) || str_eqb name n.
Proof.
  induction d as [|[n0 l] rest IH]; simpl.
  - destruct (str_eqb name n); reflexivity.
  - destruct (str_eqb n0 name) eqn:H0; simpl.
    + apply str_eqb_spec in H0. subst n0.
      destruct (str_eqb name n) eqn:H1.
      * destruct l; reflexivity.
      * rewrite orb_false_r. reflexivity.
    + destruct (str_eqb n0 n) eqn:H1.
      * apply str_eqb_spec in H1. subst n0.
        rewrite (str_eqb_sym name n), H0, orb_false_r. reflexivity.
      * exact IH.
Qed.

Lemma fold_dict_append_get (names : list str) (d : dict (list str))
    (key n : str) :
  truthy_list
    (dict_get (fold_left (fun d name => dict_append d name key) names d) n [])
  = truthy_list (dict_get d n []) || set_mem n names.
Proof.
  revert d. induction names as [|name rest IH]; intros d; simpl.
  - rewrite orb_false_r. reflexivity.
  - rewrite IH, dict_append_get, (str_eqb_sym n name), orb_assoc. reflexivity.
Qed.

Lemma collect_missing_spec (keys : list str) (locale_keys : dict (list str))
    (d : dict (list str)) (ma : list str) :
  (forall n,
     truthy_list (dict_get (fst (collect_missing keys locale_keys d ma)) n [])
     = truthy_list (dict_get d n [])
       || existsb (fun key => set_mem n (missing_locales locale_keys key))
                  keys) /\
  truthy_list (snd (collect_missing keys locale_keys d ma))
  = truthy_list ma
    || existsb (fun key =>
                  Nat.eqb (List.length (missing_locales locale_keys key))
                          (List.length locale_keys)) keys.
Proof.
  revert d ma. induction keys as [|key rest IH]; intros d ma; simpl.
  - split; [intros n|]; rewrite orb_false_r; reflexivity.
  - destruct (IH (fold_left (fun d name => dict_append d name key)
                            (missing_locales locale_keys key) d)
                 (if Nat.eqb (List.length (missing_locales locale_keys key))
                             (List.length locale_keys)
                  then ma ++ [key] else ma)) as [Hd Hma].
    split.
    + intros n. rewrite Hd, fold_dict_append_get, orb_assoc. reflexivity.
    + rewrite Hma.
      destruct (Nat.eqb (List.length (missing_locales locale_keys key))
                        (List.length locale_keys)); simpl.
      * destruct ma; simpl; rewrite ?orb_true_r; reflexivity.
      * reflexivity.
Qed.

Lemma print_missing_run (names : list str) (d : dict (list str))
    (any_missing : bool) (st : state) :
  exists evs,
    print_missing names d any_missing st
    = (Ok (any_missing
           || existsb (fun n => truthy_list (dict_get d n [])) names),
       after st evs).
Proof.
  revert any_missing st. induction names as [|n rest IH];
    intros any_missing st; simpl.
  - exists []. unfold mret. rewrite after_nil, orb_false_r. reflexivity.
  - unfold mbind. rewrite print_list_run.
    match goal with
    | |- context [print_missing rest d ?b ?s] =>
        destruct (IH b s) as [evs ->]
    end.
    rewrite after_after. eexists.
    destruct (truthy_list (dict_get d n [])), any_missing; reflexivity.
Qed.

Lemma missing_locales_nil (locale_keys : dict (list str)) (key : str) :
  missing_locales locale_keys key = []
  <-> forall name keys, In (name, keys) locale_keys -> set_mem key keys = true.
Proof.
  unfold missing_locales. induction locale_keys as [|[n ks] rest IH]; simpl.
  - split; [intros _ name keys [] | reflexivity].
  - destruct (set_mem key ks) eqn:Hm; simpl.
    + rewrite IH. split.
      * intros H name keys [Heq|Hin]; [congruence | eauto].
      * intros H name keys Hin. apply (H name keys). right; exact Hin.
    + split; [discriminate|]. intros H.
      specialize (H n ks (or_introl eq_refl)). congruence.
Qed.

Lemma missing_locales_names (locale_keys : dict (list str)) (key n : str) :
  In n (missing_locales locale_keys key) -> In n (map fst locale_keys).
Proof.
  unfold missing_locales. rewrite !in_map_iff.
  intros [item [Hn Hin]]. apply filter_In in Hin. exists item. tauto.
Qed.

Lemma existsb_pointwise {A : Type} (f g : A -> bool) (l : list A) :
  (forall x, f x = g x) -> existsb f l = existsb g l.
Proof.
  intros H. induction l as [|x l IH]; simpl; [reflexivity|].
  rewrite H, IH. reflexivity.
Qed.

(** The report's verdict, as a boolean over its inputs. *)
Lemma report_run (src_dir : str) (used_keys : list str)
    (locale_keys : dict (list str)) (st : state) :
  exists evs,
    report src_dir used_keys locale_keys st
    = (Ok (if existsb (fun n =>
                 existsb (fun key =>
                            set_mem n (missing_locales locale_keys key))
                         (sorted used_keys))
               (sorted (map fst locale_keys))
              || existsb (fun key =>
                   Nat.eqb (List.length (missing_locales locale_keys key))
                           (List.length locale_keys)) (sorted used_keys)
           then 2%Z else 0%Z),
       after st evs).
Proof.
  unfold report.
  destruct (collect_missing_spec (sorted used_keys) locale_keys [] [])
    as [Hd Hma].
  destruct (collect_missing (sorted used_keys) locale_keys [] [])
    as [d ma]. cbn [fst snd] in Hd, Hma. cbn [truthy_list orb] in Hma.
  unfold mbind at 1. unfold print at 1, log.
  unfold mbind at 1.
  match goal with
  | |- context [print_missing ?ns d false ?s] =>
      destruct (print_missing_run ns d false s) as [evs1 ->]
  end.
  cbn [orb]. rewrite after_after.
  rewrite (existsb_pointwise _ _ _ Hd). cbn [dict_get truthy_list orb].
  unfold mbind. rewrite Hma.
  destruct (existsb (fun key =>
              Nat.eqb (List.length (missing_locales locale_keys key))
                      (List.length locale_keys)) (sorted used_keys)).
  - rewrite print_list_run. unfold mret. rewrite after_after, orb_true_r.
    eexists; reflexivity.
  - unfold mret. rewrite orb_false_r. eexists; reflexivity.
Qed.

Lemma existsb_false {A : Type} (f : A -> bool) (l : list A) :
  existsb f l = false <-> forall x, In x l -> f x = false.
Proof.
  induction l as [|a l IH]; simpl.
  - split; [intros _ x [] | reflexivity].
  - rewrite orb_false_iff, IH. split.
    + intros [Ha Hl] x [<-|Hx]; auto.
    + intros H. split; [apply H; auto | intros x Hx; apply H; auto].
Qed.

(** X25: the report over at least one locale never raises, changes no
    file, and ends with status 0 exactly when every used key is among the
    keys of every locale; otherwise the status is 2. *)
Theorem report_exit_status (src_dir : str) (used_keys : list str)
    (locale_keys : dict (list str)) (st : state) :
  locale_keys <> [] ->
  exists code st',
    report src_dir used_keys locale_keys st = (Ok code, st') /\
    files st' = files st /\
    (code = 0%Z \/ code = 2%Z) /\
    (code = 0%Z <-> all_translated used_keys locale_keys).
Proof.
  intros Hne.
  destruct (report_run src_dir used_keys locale_keys st) as [evs Hrun].
  eexists; eexists. split; [exact Hrun|]. split; [reflexivity|].
  set (e1 := existsb _ (sorted (map fst locale_keys))).
  set (e2 := existsb _ (sorted used_keys)).
  assert (Hiff : e1 || e2 = false <-> all_translated used_keys locale_keys).
  { unfold e1, e2. rewrite orb_false_iff. split.
    - intros [H1 _] key name keys Hkey Hin.
      destruct (set_mem key keys) eqn:Hm; [reflexivity|].
      rewrite existsb_false in H1.
      assert (Hname : In name (missing_locales locale_keys key)).
      { unfold missing_locales. apply in_map_iff. exists (name, keys).
        split; [reflexivity|]. apply filter_In. split; [exact Hin|].
        cbn [snd]. rewrite Hm. reflexivity. }
      specialize (H1 name).
      rewrite sorted_In in H1.
      specialize (H1 (missing_locales_names _ _ _ Hname)).
      rewrite existsb_false in H1. specialize (H1 key).
      rewrite sorted_In in H1. specialize (H1 Hkey).
      apply set_mem_In in Hname. congruence.
    - intros Hall.
      assert (Hnil : forall key, In key (sorted used_keys) ->
                                 missing_locales locale_keys key = []).
      { intros key Hkey. apply (proj1 (sorted_In _ _)) in Hkey.
        apply missing_locales_nil.
        intros name keys Hin. apply (Hall key name keys Hkey Hin). }
      split; apply existsb_false.
      + intros n _. apply existsb_false. intros key Hkey.
        rewrite (Hnil key Hkey). reflexivity.
      + intros key Hkey. rewrite (Hnil key Hkey).
        destruct locale_keys; [congruence | reflexivity]. }
  destruct (e1 || e2).
  - split; [right; reflexivity|]. split; [discriminate|].
    intros H. apply Hiff in H. discriminate.
  - split; [left; reflexivity|]. split; [intros _; apply Hiff|]; reflexivity.
Qed.

Lemma report_exit_status_witness :
  exists code st',
    report (lit "src") [lit "menu.file"; lit "app.title"] sample_locales
      empty_state = (Ok code, st') /\
    (code = 0%Z \/ code = 2%Z).
Proof.
  destruct (report_exit_status (lit "src") [lit "menu.file"; lit "app.title"]
              sample_locales empty_state)
    as [code [st' [Hrun [_ [Hcode _]]]]]; [discriminate|].
  exists code, st'. split; [exact Hrun | exact Hcode].
Defined.







(* ------------------------------------------------------------------ *)
(** * Runs of the release script that fail *)

(** X27: a working tree manifest the parser rejects aborts the run: with
    the base commit taken from the environment, [main] raises the parser's
    error right after reading and parsing the manifest, before any [git]
    call, any output and any write. *)
Theorem main_malformed_manifest (w : World) (st : state) (sha text : str)
    (e : exn) :
  environ w (lit "BEFORE_SHA") = Some sha -> sha <> [] ->
  read_text w client_manifest = Ok text ->
  toml_loads w text = Raise e ->
  handles [FileNotFoundError; KeyError] e = false ->
  main w st
  = (Raise e, after st [EvRead client_manifest; EvLoads text]).
Proof.
  intros Hsha Hsha0 Hread Hloads He.
  rewrite main_run, (resolve_before_sha_supplied w st sha Hsha Hsha0).
  rewrite for_each_binary_crates.
  unfold process_crate, read_versions, mbind.
  rewrite get_version_run. cbn [manifest_source get_version_events].
  rewrite Hread, Hloads, He. reflexivity.
Qed.

Lemma main_malformed_manifest_witness :
  main world_malformed empty_state
  = (Raise TOMLDecodeError,
     after empty_state [EvRead client_manifest; EvLoads (lit "[package")]).
Proof.
  apply (main_malformed_manifest world_malformed empty_state sample_sha
           (lit "[package") TOMLDecodeError);
    try reflexivity. vm_compute; discriminate.
Defined.

(** X28: without a base commit in the environment, a [git] that cannot be
    started aborts the run at once: [main] raises the error of
    [subprocess.run] after the one attempt to run [git rev-parse], having
    read, printed and written nothing. *)
Theorem main_git_unavailable (w : World) (st : state) (e : exn) :
  nonempty (environ w (lit "BEFORE_SHA")) = None ->
  run_process w git_rev_parse_argv = Failed e ->
  isinstance e CalledProcessError = false ->
  main w st = (Raise e, after st [EvRun git_rev_parse_argv]).
Proof.
  intros Hno Hrun He.
  rewrite main_run, resolve_before_sha_run, environ_get_truthy.
  replace (truthy_opt (environ w (lit "BEFORE_SHA"))) with false
    by (destruct (environ w (lit "BEFORE_SHA")) as [[|c r]|];
        cbn in Hno; try reflexivity; discriminate).
  rewrite Hrun. unfold parent_or_null. rewrite He. reflexivity.
Qed.

Lemma loop_returns (w : World) (sha : str) (st : state) :
  (forall argv, exists code out, run_process w argv = Exited code out) ->
  (forall text, read_text w client_manifest = Ok text -> well_formed w text) ->
  (forall e, read_text w client_manifest = Raise e -> e = FileNotFoundError) ->
  (forall sha out,
     run_process w (git_show_argv sha client_manifest) = Exited 0 out ->
     well_formed w out) ->
  exists l st',
    for_each_crate w sha BINARY_CRATES initial_locals st = (Ok l, st').
Proof.
  intros Hgit Hcur Hmiss Hprev.
  assert (Hrv : exists previous current st1,
             read_versions w sha client_manifest st
             = (Ok (previous, current), st1)).
  { unfold read_versions, mbind.
    destruct (get_version_well_formed w client_manifest None st Hcur Hmiss)
      as [current Hc].
    destruct (get_version w client_manifest None st) as [r st1].
    cbn [fst] in Hc. subst r.
    rewrite get_previous_content_run.
    destruct (str_eqb sha null_sha);
      [do 3 eexists; reflexivity|].
    destruct (Hgit (git_show_argv sha client_manifest)) as [code [out Hrun]].
    rewrite Hrun. destruct (Z.eqb_spec code 0) as [->|Hcode];
      [|do 3 eexists; reflexivity].
    cbn [truthy_opt]. destruct (truthy out);
      [|do 3 eexists; reflexivity].
    destruct (get_version_well_formed w client_manifest (Some out)
                (after st1 [EvRun (git_show_argv sha client_manifest)]))
      as [previous Hp].
    - intros text Ht. injection Ht as <-. exact (Hprev sha out Hrun).
    - intros e He. discriminate He.
    - destruct (get_version w client_manifest (Some out) _) as [r st2].
      cbn [fst] in Hp. subst r. do 3 eexists; reflexivity. }
  destruct Hrv as [previous [current [st1 Hrv]]].
  destruct (process_crate_run w sha client_manifest (lit "chatty") _ _
              initial_locals _ _ Hrv) as [st2 Hstep].
  rewrite for_each_binary_crates, Hstep. eauto.
Qed.

Lemma emit_refused (w : World) (output_file : str) (l : locals) (st : state)
    (e : exn) :
  output_file <> [] -> open_error w output_file = Some e ->
  emit w output_file l st = (Raise e, st).
Proof.
  intros Hne Hopen. unfold emit.
  destruct output_file as [|c r]; [congruence|]. cbn [truthy].
  unfold mbind at 1. unfold open_append. rewrite Hopen. reflexivity.
Qed.

(** X29: a result file that cannot be opened is fatal, and only that: when
    everything up to the writing goes through, [main] raises the error of
    [open], and no file has been changed. *)
Theorem main_output_refused (w : World) (st : state) (out : str) (e : exn) :
  (forall argv, exists code shown, run_process w argv = Exited code shown) ->
  (forall text, read_text w client_manifest = Ok text -> well_formed w text) ->
  (forall e, read_text w client_manifest = Raise e -> e = FileNotFoundError) ->
  (forall sha shown,
     run_process w (git_show_argv sha client_manifest) = Exited 0 shown ->
     well_formed w shown) ->
  environ w (lit "GITHUB_OUTPUT") = Some out -> out <> [] ->
  open_error w out = Some e ->
  fst (main w st) = Raise e /\ files (snd (main w st)) = files st.
Proof.
  intros Hgit Hcur Hmiss Hprev Hout Hne Hopen. rewrite main_run.
  assert (Hres : exists sha st0, resolve_before_sha w st = (Ok sha, st0)).
  { rewrite resolve_before_sha_run. destruct (truthy _); [eauto|].
    destruct (Hgit git_rev_parse_argv) as [code [shown ->]].
    unfold parent_or_null. destruct (code =? 0)%Z; eauto. }
  destruct Hres as [sha [st0 Hres]].
  pose proof (keeps_files_resolve_before_sha w st) as F0.
  rewrite Hres in F0 |- *. cbn [snd] in F0.
  destruct (loop_returns w sha st0 Hgit Hcur Hmiss Hprev) as [l [st1 Hloop]].
  pose proof (keeps_files_for_each_crate w sha BINARY_CRATES initial_locals st0)
    as F1.
  rewrite Hloop in F1 |- *. cbn [snd] in F1.
  unfold environ_get. rewrite Hout.
  rewrite (emit_refused w out l _ e Hne Hopen).
  cbn [fst snd after files]. rewrite F1, F0. split; reflexivity.
Qed.

Lemma main_git_unavailable_witness :
  main world_no_git_at_all empty_state
  = (Raise FileNotFoundError, after empty_state [EvRun git_rev_parse_argv]).
Proof.
  apply (main_git_unavailable world_no_git_at_all empty_state
           FileNotFoundError); reflexivity.
Defined.

Lemma main_output_refused_witness :
  fst (main world_read_only empty_state) = Raise PermissionError /\
  files (snd (main world_read_only empty_state)) = files empty_state.
Proof.
  apply (main_output_refused world_read_only empty_state (lit "out.txt")
           PermissionError).
  - intros argv. exists 0%Z, (manifest_text (lit "1.1.9")). reflexivity.
  - intros text H. injection H as <-.
    exists (Package (Some (lit "1.2.0"))). split; [reflexivity|discriminate].
  - intros e H. discriminate H.
  - intros sha shown H. injection H as <-.
    exists (Package (Some (lit "1.1.9"))). split; [reflexivity|discriminate].
  - reflexivity.
  - discriminate.
  - reflexivity.
Defined.
